(** * ConfigurationLoader: configuration resolution of the ORM command line

    A shallow embedding of [packages/core/src/utils/ConfigurationLoader.ts]
    and the properties its specification states about it.

    JavaScript values are an inductive type [value]; plain objects are finite
    maps from property names to values, [process.env] is a finite map from
    names to strings, arrays are lists, strings are sequences of 8-bit
    characters (the UTF-8 form of the JavaScript string).  Code that throws
    returns a [Result].
    Everything the loader reaches outside its own file (the file system, the
    module loader, the package manifest, [Utils]) is a field of the record
    [World] or a definition of the module [Utils]. *)

From stdpp Require Import gmap strings list pretty.
From Stdlib Require Import Ascii.

#[local] Set Warnings "-register-all".

(** ** JavaScript strings *)

Module Js.

(** [String.prototype.toLowerCase] on the ASCII range: the letters A-Z are
    folded, every other code unit is left as it is.  The strings the loader
    compares with are ASCII, and a code unit outside ASCII never folds to
    one of their letters. *)
Definition lowerAscii (c : ascii) : ascii :=
  let n := nat_of_ascii c in
  if (65 <=? n)%nat && (n <=? 90)%nat then ascii_of_nat (n + 32) else c.

Fixpoint toLowerCase (s : string) : string :=
  match s with
  | EmptyString => EmptyString
  | String c s' => String (lowerAscii c) (toLowerCase s')
  end.

(** [s.startsWith(p)] and [s.endsWith(p)]. *)
Definition startsWith (s p : string) : bool := String.prefix p s.

Definition endsWith (s p : string) : bool :=
  String.prefix (String.rev p) (String.rev s).

(** [s.substring(n)]. *)
Definition substringFrom (n : nat) (s : string) : string :=
  String.substring n (String.length s - n) s.

(** [arr.join(sep)] on an array of strings. *)
Definition join (sep : string) (l : list string) : string :=
  String.concat sep l.

(** [arr.includes(x)] on an array of strings. *)
Definition includes (l : list string) (x : string) : bool :=
  bool_decide (x ∈ l).

(** Truthiness of [process.env.X], a string or [undefined]: the empty
    string is falsy like [undefined]. *)
Definition truthy (v : option string) : bool :=
  match v with
  | Some s => negb (String.eqb s "")
  | None => false
  end.

(** [v.split(',')]: the pieces between the separators, at least one. *)
Fixpoint splitGo (sep : ascii) (cur : string) (s : string) : list string :=
  match s with
  | EmptyString => [String.rev cur]
  | String c s' =>
      if Ascii.eqb c sep then String.rev cur :: splitGo sep EmptyString s'
      else splitGo sep (String c cur) s'
  end.

Definition split (sep : ascii) (s : string) : list string :=
  splitGo sep EmptyString s.

(** [vv.trim()]: white space and line terminators go at both ends.  A string
    is the UTF-8 form of the JavaScript string, so such a character is one
    byte (TAB, LF, VT, FF, CR, SP), two (U+00A0) or three (U+1680,
    U+2000-U+200A, U+2028, U+2029, U+202F, U+205F, U+3000, U+FEFF). *)
Definition isSpace (c : ascii) : bool :=
  let n := nat_of_ascii c in
  (n =? 32)%nat || ((9 <=? n)%nat && (n <=? 13)%nat).

Definition isSpace2 (c1 c2 : ascii) : bool :=
  (nat_of_ascii c1 =? 194)%nat && (nat_of_ascii c2 =? 160)%nat.

Definition isSpace3 (c1 c2 c3 : ascii) : bool :=
  let n1 := nat_of_ascii c1 in
  let n2 := nat_of_ascii c2 in
  let n3 := nat_of_ascii c3 in
  ((n1 =? 225)%nat && (n2 =? 154)%nat && (n3 =? 128)%nat)
  || ((n1 =? 226)%nat && (n2 =? 128)%nat
      && (((128 <=? n3)%nat && (n3 <=? 138)%nat)
          || (n3 =? 168)%nat || (n3 =? 169)%nat || (n3 =? 175)%nat))
  || ((n1 =? 226)%nat && (n2 =? 129)%nat && (n3 =? 159)%nat)
  || ((n1 =? 227)%nat && (n2 =? 128)%nat && (n3 =? 128)%nat)
  || ((n1 =? 239)%nat && (n2 =? 187)%nat && (n3 =? 191)%nat).

(** [vv.trimStart()]. *)
Fixpoint trimStart (s : string) : string :=
  match s with
  | EmptyString => s
  | String c1 r1 =>
      if isSpace c1 then trimStart r1
      else
        match r1 with
        | EmptyString => s
        | String c2 r2 =>
            if isSpace2 c1 c2 then trimStart r2
            else
              match r2 with
              | EmptyString => s
              | String c3 r3 => if isSpace3 c1 c2 c3 then trimStart r3 else s
              end
        end
  end.

(** Nothing but white space. *)
Definition allSpace (s : string) : bool :=
  match trimStart s with
  | EmptyString => true
  | String _ _ => false
  end.

(** [vv.trimEnd()]: the longest suffix of white space goes. *)
Fixpoint trimEnd (s : string) : string :=
  match s with
  | EmptyString => EmptyString
  | String c r => if allSpace s then EmptyString else String c (trimEnd r)
  end.

Definition trim (s : string) : string := trimEnd (trimStart s).

(** Two strings that differ only in the case of their ASCII letters. *)
Definition sameIgnoringCase (a b : string) : Prop :=
  toLowerCase a = toLowerCase b.

End Js.

(** ** JavaScript values *)

(** The values a configuration file can export and an options object can
    hold.  [VFun f] is a function of the requested context name (a config
    factory), taken as the value it resolves to: a factory that throws or
    rejects is not represented. *)
Inductive value : Type :=
| VUndefined
| VNull
| VBool (b : bool)
| VNum (z : Z)
| VStr (s : string)
| VArr (items : list value)
| VObj (props : gmap string value)
| VFun (f : string -> value).

(** Code that throws: [Throw msg] stands for [throw new Error(msg)]. *)
Inductive Result (A : Type) : Type :=
| Ok (a : A)
| Throw (msg : string).

Arguments Ok {A} a.
Arguments Throw {A} msg.

Definition bindResult {A B} (r : Result A) (k : A -> Result B) : Result B :=
  match r with
  | Ok a => k a
  | Throw msg => Throw msg
  end.

Notation "'let*' x ':=' r 'in' k" := (bindResult r (fun x => k))
  (at level 10, x name, r at level 100, k at level 200).

(** ** Boolean-like environment strings (lines 14-39) *)

Definition falsyStrings : list string := ["false"; "f"; "0"; "no"; "n"; ""].

Definition truthyStrings : list string := ["true"; "t"; "1"; "yes"; "y"].

Definition toBoolean (value : string) : bool := Js.includes truthyStrings value.

(** The [loader] option: [false] or the name of a loader. *)
Inductive LoaderOption : Type :=
| LoaderFalse
| LoaderName (name : string).

Definition loaderOptionFromEnv (value : string) : LoaderOption :=
  let maybeBoolean := Js.toLowerCase value in
  if Js.includes falsyStrings maybeBoolean then LoaderFalse
  else if Js.includes truthyStrings maybeBoolean then LoaderName "auto"
  else LoaderName value.

(** ** Helpers of [Utils] *)

Module Utils.

(** Modelled from the spec: [Utils.unique] is not part of this file.
    "Duplicate paths are removed keeping first occurrence": the elements
    are added to a set in order and the set is listed in insertion order. *)
Fixpoint uniqueGo (seen : list string) (items : list string) : list string :=
  match items with
  | [] => []
  | x :: rest =>
      if bool_decide (x ∈ seen) then uniqueGo seen rest
      else x :: uniqueGo (x :: seen) rest
  end.

Definition unique (items : list string) : list string := uniqueGo [] items.

(** Modelled from the spec: [Utils.hasObjectKeys] is not part of this file.
    "environment-derived options are non-empty": the value is an object
    with at least one property. *)
Definition hasObjectKeys (o : value) : bool :=
  match o with
  | VObj props => negb (bool_decide (props = ∅))
  | _ => false
  end.

(** Modelled from the spec: [Utils.mergeConfig] is not part of this file.
    "deep-merge mappings in strict left-to-right precedence where later
    sources override earlier ones for overlapping keys, nested mappings
    merge recursively, and non-mapping values (including arrays) are
    replaced wholesale rather than concatenated".  [mergeValue target source]
    puts every property of [source] into [target]: a mapping that meets a
    mapping is merged into it, anything else replaces what was there.  A
    source that is not a mapping contributes nothing. *)
Fixpoint mergeValue (target source : value) {struct source} : value :=
  match source with
  | VObj sprops =>
      match target with
      | VObj tprops =>
          VObj (map_fold (fun key v acc =>
                  match v with
                  | VObj _ =>
                      match acc !! key with
                      | Some (VObj _ as tv) => <[key := mergeValue tv v]> acc
                      | _ => <[key := v]> acc
                      end
                  | _ => <[key := v]> acc
                  end) tprops sprops)
      | _ => target
      end
  | _ => target
  end.

Definition mergeConfig (target : value) (sources : list value) : value :=
  fold_left mergeValue sources target.

End Utils.

(** ** Settings and the world around the loader *)

(** The interface [Settings] (lines 483-548); an absent field is [None]. *)
Record Settings : Type := mkSettings {
  verbose : option bool;
  tsConfigPath : option string;
  configPaths : option (list string);
  loader : option LoaderOption;
  alwaysAllowTs : option bool;
  useTsNode : option bool;
  preferTs : option bool;
}.

(** What [getPackageConfig()] returns: the manifest found by walking up from
    the working directory, with the fields the loader reads.  A manifest that
    was never found, or could not be read, is [emptyPackageConfig]. *)
Record PackageConfig : Type := mkPackageConfig {
  pkgSettings : Settings;                    (* config['mikro-orm'] *)
  pkgType : option string;                   (* config.type *)
  pkgDependencies : option (list string);    (* Object.keys(pkg.dependencies) *)
  pkgDevDependencies : option (list string); (* Object.keys(pkg.devDependencies) *)
}.

Definition emptySettings : Settings :=
  mkSettings None None None None None None None.

Definition emptyPackageConfig : PackageConfig :=
  mkPackageConfig emptySettings None None None.

(** Everything outside the file: the process, the file system and the
    collaborators the loader calls. *)
Record World : Type := mkWorld {
  env : gmap string string;                  (* process.env *)
  cwd : string;                              (* process.cwd() *)
  bun : option string;                       (* process.versions.bun *)
  pathExistsSync : string -> bool;
  packageConfig : PackageConfig;             (* getPackageConfig() *)
  detectTsNode : bool;                       (* Utils.detectTsNode() *)
  absolutePath : string -> string;           (* Utils.absolutePath *)
  normalizePath : string -> string;          (* Utils.normalizePath *)
  createLoader : string -> Settings -> string -> value;
                                             (* (await createLoader(b, s)).import *)
  toNumber : string -> value;                (* the unary plus on a string *)
  requireFrom : option string -> Result value;
                                             (* Utils.requireFrom(id); [None]
                                                is [undefined] for [id] *)
  ORMVersion : string;                       (* Utils.getORMVersion() *)
  requireVersion : string -> option string;  (* require(name/package.json)?.version,
                                                [None] when it throws or is absent *)
  cyan : string -> string;                   (* colors.cyan *)
  yellow : string -> string;                 (* colors.yellow *)
  green : string -> string;                  (* colors.green *)
}.

(** ** getSettings (lines 200-216) *)

(** [process.env.X != null ? f(process.env.X) : fallback]. *)
Definition envOr {A} (w : World) (name : string) (f : string -> A)
    (fallback : option A) : option A :=
  match env w !! name with
  | Some v => Some (f v)
  | None => fallback
  end.

Definition getSettings (w : World) : Settings :=
  let settings := pkgSettings (packageConfig w) in
  let tsConfigPath' := envOr w "MIKRO_ORM_CLI_TS_CONFIG_PATH" id (tsConfigPath settings) in
  let verbose' := envOr w "MIKRO_ORM_CLI_VERBOSE" toBoolean (verbose settings) in
  let useTsNode' := envOr w "MIKRO_ORM_CLI_USE_TS_NODE" toBoolean (useTsNode settings) in
  let alwaysAllowTs' := envOr w "MIKRO_ORM_CLI_ALWAYS_ALLOW_TS" toBoolean (alwaysAllowTs settings) in
  let loader' := envOr w "MIKRO_ORM_CLI_LOADER" loaderOptionFromEnv (loader settings) in
  let useTsNode'' :=
    match env w !! "MIKRO_ORM_CLI_CONFIG" with
    | Some p => if Js.endsWith p ".ts" then Some true else useTsNode'
    | None => useTsNode'
    end in
  {| verbose := verbose';
     tsConfigPath := tsConfigPath';
     configPaths := configPaths settings;
     loader := loader';
     alwaysAllowTs := alwaysAllowTs';
     useTsNode := useTsNode'';
     preferTs := preferTs settings |}.

(** ** getConfigPaths (lines 228-253) *)

(** [settings.alwaysAllowTs ?? process.versions.bun], as a condition. *)
Definition forceAllowTs (w : World) : bool :=
  match alwaysAllowTs (getSettings w) with
  | Some b => b
  | None => Js.truthy (bun w)
  end.

(** [settings.useTsNode !== false]. *)
Definition notFalse (b : option bool) : bool :=
  match b with
  | Some false => false
  | _ => true
  end.

(** [paths.push(...items)]. *)
Definition push (paths items : list string) : list string := paths ++ items.

Definition getConfigPaths (w : World) : list string :=
  let paths := [] in
  let settings := getSettings w in
  let cliConfig := env w !! "MIKRO_ORM_CLI_CONFIG" in
  let paths := if Js.truthy cliConfig then push paths (option_list cliConfig) else paths in
  let paths := push paths (default [] (configPaths settings)) in
  let alwaysAllowTs := forceAllowTs w in
  let paths :=
    if notFalse (useTsNode settings) || alwaysAllowTs
    then push (push paths ["./src/mikro-orm.config.ts"]) ["./mikro-orm.config.ts"]
    else paths in
  let distDir := pathExistsSync w (cwd w +:+ "/dist") in
  let buildDir := pathExistsSync w (cwd w +:+ "/build") in
  let path := if distDir then "dist" else if buildDir then "build" else "src" in
  let paths := push paths ["./" +:+ path +:+ "/mikro-orm.config.js"] in
  let paths := push paths ["./mikro-orm.config.js"] in
  let tsNode := detectTsNode w in
  filter (fun p => Is_true (Js.endsWith p ".js" || tsNode || alwaysAllowTs))
         (Utils.unique paths).

(** [isESM] (lines 255-260). *)
Definition isESM (w : World) : bool :=
  match pkgType (packageConfig w) with
  | Some t => String.eqb t "module"
  | None => false
  end.

(** ** getConfigFile (lines 165-178) *)

(** What the loop does to the outside, in order. *)
Inductive Event : Type :=
| ExistsCall (path : string)   (* pathExistsSync(path) *)
| ImportCall (path : string).  (* configLoader.import(path) *)

(** A computation that records the calls it makes. *)
Definition Traced (A : Type) : Type := (A * list Event)%type.

Definition tret {A} (a : A) : Traced A := (a, []).

Definition tbind {A B} (m : Traced A) (k : A -> Traced B) : Traced B :=
  let (b, later) := k (fst m) in (b, snd m ++ later).

Notation "'call' x ':=' m 'in' k" := (tbind m (fun x => k))
  (at level 10, x name, m at level 100, k at level 200).

Definition callPathExists (w : World) (path : string) : Traced bool :=
  (pathExistsSync w path, [ExistsCall path]).

Definition callImport (import : string -> value) (path : string) : Traced value :=
  (import path, [ImportCall path]).

Fixpoint getConfigFileLoop (w : World) (import : string -> value)
    (paths : list string) : Traced (option (string * value)) :=
  match paths with
  | [] => tret None
  | path :: rest =>
      let path := absolutePath w path in
      let path := normalizePath w path in
      call found := callPathExists w path in
      if found then
        call config := callImport import path in
        tret (Some (path, config))
      else getConfigFileLoop w import rest
  end.

Definition getConfigFileTraced (w : World) (paths : list string)
    (basePath : string) (settings : Settings)
    : Traced (option (string * value)) :=
  let configLoader := createLoader w basePath settings in
  getConfigFileLoop w configLoader paths.

Definition getConfigFile (w : World) (paths : list string)
    (basePath : string) (settings : Settings) : option (string * value) :=
  fst (getConfigFileTraced w paths basePath settings).

(** The normalised absolute form under which a candidate path is tested. *)
Definition resolved (w : World) (path : string) : string :=
  normalizePath w (absolutePath w path).

(** ** Selecting one configuration from what the file exports (lines 100-158) *)

(** [typeof cfg === 'object' && cfg !== null]: arrays are objects too. *)
Definition isObject (cfg : value) : bool :=
  match cfg with
  | VObj _ | VArr _ => true
  | _ => false
  end.

(** ['contextName' in cfg] and, when it is, [cfg.contextName].  An array has
    no such property. *)
Definition contextNameOf (cfg : value) : option value :=
  match cfg with
  | VObj props => props !! "contextName"
  | _ => None
  end.

(** [v === s] for a string [s]. *)
Definition strictEqualsString (v : value) (s : string) : bool :=
  match v with
  | VStr s' => String.eqb s' s
  | _ => false
  end.

Definition configFinder (contextName : string) (cfg : value) : bool :=
  isObject cfg &&
  match contextNameOf cfg with
  | Some name => strictEqualsString name contextName
  | None => String.eqb contextName "default"
  end.

Definition isValidConfigFactoryResult (contextName : string) (cfg : value) : bool :=
  isObject cfg &&
  match contextNameOf cfg with
  | Some name => strictEqualsString name contextName
  | None => true
  end.

(** [Array.isArray(tmp)]. *)
Definition isArray (tmp : value) : bool :=
  match tmp with
  | VArr _ => true
  | _ => false
  end.

(** [tmp.findIndex(f)]: [None] stands for -1. *)
Definition findIndex (f : value -> bool) (tmp : list value) : option nat :=
  fst <$> list_find (fun cfg => Is_true (f cfg)) tmp.

(** [tmp.findLastIndex(f)]: [None] stands for -1. *)
Fixpoint findLastIndex (f : value -> bool) (tmp : list value) : option nat :=
  match tmp with
  | [] => None
  | cfg :: rest =>
      match findLastIndex f rest with
      | Some i => Some (S i)
      | None => if f cfg then Some 0 else None
      end
  end.

(** The loop over the factory functions of the array (lines 124-135): [tmp]
    is what the variable [tmp] holds when the loop is left. *)
Fixpoint tryFactories (contextName : string) (entries : list value)
    (tmp : value) : value :=
  match entries with
  | [] => tmp
  | f :: rest =>
      match f with
      | VFun g =>
          let configCandidate := g contextName in
          if isValidConfigFactoryResult contextName configCandidate
          then configCandidate
          else tryFactories contextName rest tmp
      | _ => tryFactories contextName rest tmp
      end
  end.

Definition notFoundInArrayMessage (contextName path : string) : string :=
  "MikroORM config '" +:+ contextName +:+ "' was not found within the config file '"
  +:+ path +:+ "'. Either add a config with this name to the array, or add a function that when given this name will return a configuration object without a name, or with name set to this name.".

Definition notUniqueMessage (contextName path : string) (first last : nat) : string :=
  "MikroORM config '" +:+ contextName +:+ "' is not unique within the array exported by '"
  +:+ path +:+ "' (first occurrence index: " +:+ pretty first
  +:+ "; last occurrence index: " +:+ pretty last +:+ ")".

Definition badFactoryMessage (contextName path : string) : string :=
  "MikroORM config '" +:+ contextName +:+ "' was not what the function exported from '"
  +:+ path +:+ "' provided. Ensure it returns a config object with no name, or name matching the requested one.".

Definition badExportMessage (contextName path : string) : string :=
  "MikroORM config '" +:+ contextName +:+ "' was not what the default export from '"
  +:+ path +:+ "' provided.".

(** Lines 119-158: from the loaded export [tmp] to the configuration that is
    merged, or the error that is thrown. *)
Definition selectConfig (contextName path : string) (tmp : value) : Result value :=
  match tmp with
  | VArr entries =>
      match findIndex (configFinder contextName) entries with
      | None =>
          let tmp := tryFactories contextName entries tmp in
          if isArray tmp then Throw (notFoundInArrayMessage contextName path)
          else Ok tmp
      | Some tmpFirstIndex =>
          let tmpLastIndex := findLastIndex (configFinder contextName) entries in
          if bool_decide (tmpLastIndex ≠ Some tmpFirstIndex)
          then Throw (notUniqueMessage contextName path tmpFirstIndex
                        (default 0 tmpLastIndex))
          else Ok (default VUndefined (entries !! tmpFirstIndex))
      end
  | VFun f =>
      let tmp := f contextName in
      if isValidConfigFactoryResult contextName tmp then Ok tmp
      else Throw (badFactoryMessage contextName path)
  | _ =>
      if configFinder contextName tmp then Ok tmp
      else Throw (badExportMessage contextName path)
  end.

(** ** loadEnvironmentVars (lines 314-408) *)

(** The table [PLATFORMS]: short driver name to [(className, module)]. *)
Definition PLATFORMS : gmap string (string * string) :=
  list_to_map [
    ("mongo", ("MongoDriver", "@mikro-orm/mongodb"));
    ("mysql", ("MySqlDriver", "@mikro-orm/mysql"));
    ("mssql", ("MsSqlDriver", "@mikro-orm/mssql"));
    ("mariadb", ("MariaDbDriver", "@mikro-orm/mariadb"));
    ("postgresql", ("PostgreSqlDriver", "@mikro-orm/postgresql"));
    ("sqlite", ("SqliteDriver", "@mikro-orm/sqlite"));
    ("better-sqlite", ("BetterSqliteDriver", "@mikro-orm/better-sqlite"));
    ("libsql", ("LibSqlDriver", "@mikro-orm/libsql"))
  ].

(** [o[key]] for a value [o]; a missing property is [undefined]. *)
Definition getProp (o : value) (key : string) : value :=
  match o with
  | VObj props => default VUndefined (props !! key)
  | _ => VUndefined
  end.

Definition array (v : string) : value :=
  VArr ((fun vv => VStr (Js.trim vv)) <$> Js.split "," v).

Definition num (w : World) (v : string) : value := toNumber w v.

(** [toBoolean] as a mapper: its result as a value. *)
Definition asBoolean (v : string) : value := VBool (toBoolean v).

(** The properties the object literal [PLATFORMS] inherits from
    [Object.prototype]: for these names [PLATFORMS[v]] is not [undefined],
    and has neither [module] nor [className]. *)
Definition objectPrototypeNames : list string := [
  "constructor"; "hasOwnProperty"; "isPrototypeOf"; "propertyIsEnumerable";
  "toLocaleString"; "toString"; "valueOf"; "__proto__";
  "__defineGetter__"; "__defineSetter__"; "__lookupGetter__"; "__lookupSetter__"
].

(** [exports[key]] on what [Utils.requireFrom] returned: reading a property
    of [undefined] or [null] throws. *)
Definition indexExports (exports : value) (key : string) : Result value :=
  match exports with
  | VUndefined =>
      Throw ("Cannot read properties of undefined (reading '" +:+ key +:+ "')")
  | VNull =>
      Throw ("Cannot read properties of null (reading '" +:+ key +:+ "')")
  | _ => Ok (getProp exports key)
  end.

(** [PLATFORMS[v]] is [undefined] for a name that is neither in the table
    nor inherited, and reading [.module] from it throws; for an inherited
    name [.module] and [.className] are [undefined]. *)
Definition driver (w : World) (v : string) : Result value :=
  match PLATFORMS !! v with
  | Some (className, moduleName) =>
      let* exports := requireFrom w (Some moduleName) in
      indexExports exports className
  | None =>
      if Js.includes objectPrototypeNames v then
        let* exports := requireFrom w None in
        indexExports exports "undefined"
      else Throw "Cannot read properties of undefined (reading 'module')"
  end.

Definition read (w : World) (o : gmap string value) (envKey key : string)
    (mapper : string -> value) : gmap string value :=
  match env w !! envKey with
  | None => o
  | Some val => <[key := mapper val]> o
  end.

(** [read] with a mapper that can throw. *)
Definition readThrowing (w : World) (o : gmap string value) (envKey key : string)
    (mapper : string -> Result value) : Result (gmap string value) :=
  match env w !! envKey with
  | None => Ok o
  | Some val => let* v := mapper val in Ok (<[key := v]> o)
  end.

Definition cleanup (o : gmap string value) (k : string) : gmap string value :=
  if Utils.hasObjectKeys (default VUndefined (o !! k)) then o else delete k o.

Definition loadDiscovery (w : World) : gmap string value :=
  let o := ∅ in
  let o := read w o "MIKRO_ORM_DISCOVERY_WARN_WHEN_NO_ENTITIES" "warnWhenNoEntities" asBoolean in
  let o := read w o "MIKRO_ORM_DISCOVERY_REQUIRE_ENTITIES_ARRAY" "requireEntitiesArray" asBoolean in
  let o := read w o "MIKRO_ORM_DISCOVERY_ALWAYS_ANALYSE_PROPERTIES" "alwaysAnalyseProperties" asBoolean in
  let o := read w o "MIKRO_ORM_DISCOVERY_DISABLE_DYNAMIC_FILE_ACCESS" "disableDynamicFileAccess" asBoolean in
  o.

Definition loadMigrations (w : World) : gmap string value :=
  let o := ∅ in
  let o := read w o "MIKRO_ORM_MIGRATIONS_TABLE_NAME" "tableName" VStr in
  let o := read w o "MIKRO_ORM_MIGRATIONS_PATH" "path" VStr in
  let o := read w o "MIKRO_ORM_MIGRATIONS_PATH_TS" "pathTs" VStr in
  let o := read w o "MIKRO_ORM_MIGRATIONS_GLOB" "glob" VStr in
  let o := read w o "MIKRO_ORM_MIGRATIONS_TRANSACTIONAL" "transactional" asBoolean in
  let o := read w o "MIKRO_ORM_MIGRATIONS_DISABLE_FOREIGN_KEYS" "disableForeignKeys" asBoolean in
  let o := read w o "MIKRO_ORM_MIGRATIONS_ALL_OR_NOTHING" "allOrNothing" asBoolean in
  let o := read w o "MIKRO_ORM_MIGRATIONS_DROP_TABLES" "dropTables" asBoolean in
  let o := read w o "MIKRO_ORM_MIGRATIONS_SAFE" "safe" asBoolean in
  let o := read w o "MIKRO_ORM_MIGRATIONS_SILENT" "silent" asBoolean in
  let o := read w o "MIKRO_ORM_MIGRATIONS_EMIT" "emit" VStr in
  let o := read w o "MIKRO_ORM_MIGRATIONS_SNAPSHOT" "snapshot" asBoolean in
  let o := read w o "MIKRO_ORM_MIGRATIONS_SNAPSHOT_NAME" "snapshotName" VStr in
  o.

Definition loadSchemaGenerator (w : World) : gmap string value :=
  let o := ∅ in
  let o := read w o "MIKRO_ORM_SCHEMA_GENERATOR_DISABLE_FOREIGN_KEYS" "disableForeignKeys" asBoolean in
  let o := read w o "MIKRO_ORM_SCHEMA_GENERATOR_CREATE_FOREIGN_KEY_CONSTRAINTS" "createForeignKeyConstraints" asBoolean in
  o.

Definition loadSeeder (w : World) : gmap string value :=
  let o := ∅ in
  let o := read w o "MIKRO_ORM_SEEDER_PATH" "path" VStr in
  let o := read w o "MIKRO_ORM_SEEDER_PATH_TS" "pathTs" VStr in
  let o := read w o "MIKRO_ORM_SEEDER_GLOB" "glob" VStr in
  let o := read w o "MIKRO_ORM_SEEDER_EMIT" "emit" VStr in
  let o := read w o "MIKRO_ORM_SEEDER_DEFAULT_SEEDER" "defaultSeeder" VStr in
  o.

Definition loadEnvironmentVars (w : World) : Result (gmap string value) :=
  let ret := ∅ in
  let ret := read w ret "MIKRO_ORM_BASE_DIR" "baseDir" VStr in
  let* ret := readThrowing w ret "MIKRO_ORM_TYPE" "driver" (driver w) in
  let ret := read w ret "MIKRO_ORM_ENTITIES" "entities" array in
  let ret := read w ret "MIKRO_ORM_ENTITIES_TS" "entitiesTs" array in
  let ret := read w ret "MIKRO_ORM_CLIENT_URL" "clientUrl" VStr in
  let ret := read w ret "MIKRO_ORM_HOST" "host" VStr in
  let ret := read w ret "MIKRO_ORM_PORT" "port" (num w) in
  let ret := read w ret "MIKRO_ORM_USER" "user" VStr in
  let ret := read w ret "MIKRO_ORM_PASSWORD" "password" VStr in
  let ret := read w ret "MIKRO_ORM_DB_NAME" "dbName" VStr in
  let ret := read w ret "MIKRO_ORM_SCHEMA" "schema" VStr in
  let ret := read w ret "MIKRO_ORM_LOAD_STRATEGY" "loadStrategy" VStr in
  let ret := read w ret "MIKRO_ORM_BATCH_SIZE" "batchSize" (num w) in
  let ret := read w ret "MIKRO_ORM_USE_BATCH_INSERTS" "useBatchInserts" asBoolean in
  let ret := read w ret "MIKRO_ORM_USE_BATCH_UPDATES" "useBatchUpdates" asBoolean in
  let ret := read w ret "MIKRO_ORM_STRICT" "strict" asBoolean in
  let ret := read w ret "MIKRO_ORM_VALIDATE" "validate" asBoolean in
  let ret := read w ret "MIKRO_ORM_ALLOW_GLOBAL_CONTEXT" "allowGlobalContext" asBoolean in
  let ret := read w ret "MIKRO_ORM_AUTO_JOIN_ONE_TO_ONE_OWNER" "autoJoinOneToOneOwner" asBoolean in
  let ret := read w ret "MIKRO_ORM_POPULATE_AFTER_FLUSH" "populateAfterFlush" asBoolean in
  let ret := read w ret "MIKRO_ORM_FORCE_ENTITY_CONSTRUCTOR" "forceEntityConstructor" asBoolean in
  let ret := read w ret "MIKRO_ORM_FORCE_UNDEFINED" "forceUndefined" asBoolean in
  let ret := read w ret "MIKRO_ORM_FORCE_UTC_TIMEZONE" "forceUtcTimezone" asBoolean in
  let ret := read w ret "MIKRO_ORM_TIMEZONE" "timezone" VStr in
  let ret := read w ret "MIKRO_ORM_ENSURE_INDEXES" "ensureIndexes" asBoolean in
  let ret := read w ret "MIKRO_ORM_IMPLICIT_TRANSACTIONS" "implicitTransactions" asBoolean in
  let ret := read w ret "MIKRO_ORM_DEBUG" "debug" asBoolean in
  let ret := read w ret "MIKRO_ORM_COLORS" "colors" asBoolean in
  let ret := cleanup (<["discovery" := VObj (loadDiscovery w)]> ret) "discovery" in
  let ret := cleanup (<["migrations" := VObj (loadMigrations w)]> ret) "migrations" in
  let ret := cleanup (<["schemaGenerator" := VObj (loadSchemaGenerator w)]> ret) "schemaGenerator" in
  let ret := cleanup (<["seeder" := VObj (loadSeeder w)]> ret) "seeder" in
  Ok ret.

(** ** getConfiguration (lines 69-163) *)

(** What [new Configuration(options, validate)] is given; [validate] is
    [true] unless passed. *)
Record Configuration : Type := mkConfiguration {
  configOptions : value;
  configValidate : bool;
}.

Definition newConfiguration (options : value) : Configuration :=
  mkConfiguration options true.

(** [options.baseDir], a string when it is set. *)
Definition baseDirOf (options : gmap string value) : option string :=
  match options !! "baseDir" with
  | Some (VStr dir) => Some dir
  | _ => None
  end.

Definition notFoundMessage (paths : list string) : string :=
  "MikroORM config file not found in ['" +:+ Js.join "', '" paths +:+ "']".

Definition esmConfigOptions (w : World) : value :=
  if isESM w
  then VObj {[ "entityGenerator" := VObj {[ "esmImport" := VBool true ]} ]}
  else VObj ∅.

(** The overload with a context name and an array of paths; the deprecated
    overloads (a boolean first argument, or options in place of the paths)
    end in this one or are not covered here. *)
Definition getConfiguration (w : World) (contextName : string)
    (paths : list string) (options : gmap string value) : Result Configuration :=
  let settings := getSettings w in
  let basePath := default (cwd w) (baseDirOf options) in
  let* env := loadEnvironmentVars w in
  let result := getConfigFile w paths basePath settings in
  if negb (Js.truthy (fst <$> result)) then
    if Utils.hasObjectKeys (VObj env)
    then Ok (newConfiguration
               (Utils.mergeConfig (VObj {[ "contextName" := VStr contextName ]})
                  [VObj options; VObj env]))
    else Throw (notFoundMessage paths)
  else
    let path := default "" (fst <$> result) in
    let tmp := default VUndefined (snd <$> result) in
    let* tmp := selectConfig contextName path tmp in
    Ok (newConfiguration
          (Utils.mergeConfig (VObj ∅)
             [esmConfigOptions w; tmp; VObj options; VObj env])).

(** ** checkPackageVersion (lines 410-476) *)

Definition getORMPackages (w : World) : list string :=
  let pkg := packageConfig w in
  Utils.unique (default [] (pkgDependencies pkg) ++ default [] (pkgDevDependencies pkg)).

Definition getORMPackageVersion (w : World) (name : string) : option string :=
  requireVersion w name.

Definition exceptions : list string := ["nestjs"; "sql-highlighter"; "mongo-highlighter"].

Definition newline : string := String (ascii_of_nat 10) EmptyString.

Definition badVersionMessage (w : World) (ormPackage version coreVersion : string) : string :=
  "Bad " +:+ cyan w ormPackage +:+ " version " +:+ yellow w version +:+ "." +:+ newline
  +:+ "All official @mikro-orm/* packages need to have the exact same version as @mikro-orm/core ("
  +:+ green w coreVersion +:+ ")." +:+ newline
  +:+ "Only exceptions are packages that don't live in the 'mikro-orm' repository: "
  +:+ Js.join ", " exceptions +:+ "." +:+ newline
  +:+ "Maybe you want to check, or regenerate your yarn.lock or package-lock.json file?".

(** The filter of line 460. *)
Definition isOrmPackage (d : string) : bool :=
  Js.startsWith d "@mikro-orm/"
  && negb (String.eqb d "@mikro-orm/core")
  && negb (Js.includes exceptions (Js.substringFrom (String.length "@mikro-orm/") d)).

(** The loop of lines 462-473. *)
Fixpoint checkVersions (w : World) (coreVersion : string)
    (ormPackages : list string) : Result unit :=
  match ormPackages with
  | [] => Ok tt
  | ormPackage :: rest =>
      match getORMPackageVersion w ormPackage with
      | Some version =>
          if negb (String.eqb version coreVersion)
          then Throw (badVersionMessage w ormPackage version coreVersion)
          else checkVersions w coreVersion rest
      | None => checkVersions w coreVersion rest
      end
  end.

Definition checkPackageVersion (w : World) : Result string :=
  let coreVersion := ORMVersion w in
  if Js.truthy (env w !! "MIKRO_ORM_ALLOW_VERSION_MISMATCH") then Ok coreVersion
  else
    let deps := getORMPackages w in
    let ormPackages := filter (fun d => Is_true (isOrmPackage d)) deps in
    let* checked := checkVersions w coreVersion ormPackages in
    Ok coreVersion.

(** ** The candidate paths as the specification lists them *)

Module Spec.

(** The override of the environment, when it is set (to a non-empty
    string). *)
Definition overridePath (w : World) : list string :=
  match env w !! "MIKRO_ORM_CLI_CONFIG" with
  | Some p => if decide (p = "") then [] else [p]
  | None => []
  end.

(** The [configPaths] the manifest declares, in declared order. *)
Definition manifestPaths (w : World) : list string :=
  default [] (configPaths (pkgSettings (packageConfig w))).

(** The TypeScript sources, unless [useTsNode] is explicitly [false] and
    TypeScript is not force-allowed. *)
Definition sourceCandidates (w : World) : list string :=
  if bool_decide (useTsNode (getSettings w) ≠ Some false) || forceAllowTs w
  then ["./src/mikro-orm.config.ts"; "./mikro-orm.config.ts"]
  else [].

(** The build output directory: [dist], else [build], else [src]. *)
Definition outputDir (w : World) : string :=
  if pathExistsSync w (cwd w +:+ "/dist") then "dist"
  else if pathExistsSync w (cwd w +:+ "/build") then "build"
  else "src".

Definition compiledCandidates (w : World) : list string :=
  ["./" +:+ outputDir w +:+ "/mikro-orm.config.js"; "./mikro-orm.config.js"].

Definition candidatePaths (w : World) : list string :=
  overridePath w ++ manifestPaths w ++ sourceCandidates w ++ compiledCandidates w.

(** The final filter: a compiled file, or a TypeScript loader was
    detected, or TypeScript is force-allowed. *)
Definition loadable (w : World) (p : string) : bool :=
  Js.endsWith p ".js" || detectTsNode w || forceAllowTs w.

End Spec.

(** No candidate exists under its resolved form. *)
Definition noneExists (w : World) (paths : list string) : Prop :=
  Forall (fun p => pathExistsSync w (resolved w p) = false) paths.

(** ** The merge, key by key *)

(** One step of [Utils.mergeValue]: the property [key] of the source, with
    value [v], is put into the properties [acc] of the target. *)
Definition mergeEntry (key : string) (v : value) (acc : gmap string value)
    : gmap string value :=
  match v with
  | VObj _ =>
      match acc !! key with
      | Some (VObj _ as tv) => <[key := Utils.mergeValue tv v]> acc
      | _ => <[key := v]> acc
      end
  | _ => <[key := v]> acc
  end.

(** A plain mapping, as opposed to an array or a scalar. *)
Definition isMapping (v : value) : bool :=
  match v with
  | VObj _ => true
  | _ => false
  end.

(** What a key holds after a source of higher precedence is merged over one
    of lower precedence: a mapping over a mapping is merged with it, any
    other value of the higher source replaces what was there, and a key the
    higher source does not have keeps what it had. *)
Definition overlay (lower higher : option value) : option value :=
  match higher with
  | None => lower
  | Some h =>
      match h, lower with
      | VObj _, Some (VObj _ as l) => Some (Utils.mergeValue l h)
      | _, _ => Some h
      end
  end.

(** The properties of the ESM compatibility flag object. *)
Definition esmConfigProps (w : World) : gmap string value :=
  if isESM w
  then {[ "entityGenerator" := VObj {[ "esmImport" := VBool true ]} ]}
  else ∅.

(** ** Entries of an exported array *)

(** No entry of the array matches the requested context name. *)
Definition noMatch (contextName : string) (entries : list value) : Prop :=
  Forall (fun cfg => configFinder contextName cfg = false) entries.

(** An entry the loop over the factories passes by: it is not a function,
    or it is one whose result for [contextName] is not valid. *)
Definition passedBy (contextName : string) (entry : value) : Prop :=
  match entry with
  | VFun g => isValidConfigFactoryResult contextName (g contextName) = false
  | _ => True
  end.

(** The fallback on the factories as the specification words it: when no
    entry matches, the first factory result that is a non-null object whose
    [contextName] is absent or is the requested name is selected. *)
Definition factoryFallbackAsSpecified (contextName path : string)
    (entries : list value) : Prop :=
  noMatch contextName entries →
  ∀ before f after,
    entries = before ++ VFun f :: after →
    Forall (passedBy contextName) before →
    isValidConfigFactoryResult contextName (f contextName) = true →
    selectConfig contextName path (VArr entries) = Ok (f contextName).

(** ** The packages whose version is compared *)

(** Line 460: the dependencies under the companion prefix, without the core
    package and the exceptions. *)
Definition checkedPackages (w : World) : list string :=
  filter (fun d => Is_true (isOrmPackage d)) (getORMPackages w).

(** A package that gives no reason to fail: its version could not be
    determined, or it is the version of the core package. *)
Definition agrees (w : World) (ormPackage : string) : Prop :=
  getORMPackageVersion w ormPackage = None
  ∨ getORMPackageVersion w ormPackage = Some (ORMVersion w).

(** ** Worlds to run the loader in *)

Module Sample.

(** A project directory with nothing in it: no manifest, no config file,
    no environment variable, no TypeScript loader. *)
Definition bare : World := {|
  env := ∅;
  cwd := "/app";
  bun := None;
  pathExistsSync := fun _ => false;
  packageConfig := emptyPackageConfig;
  detectTsNode := false;
  absolutePath := fun p => "/app/" +:+ p;
  normalizePath := fun p => p;
  createLoader := fun _ _ _ => VUndefined;
  toNumber := fun _ => VUndefined;
  requireFrom := fun _ => Throw "Cannot find module";
  ORMVersion := "6.4.0";
  requireVersion := fun _ => None;
  cyan := fun s => s;
  yellow := fun s => s;
  green := fun s => s;
|}.

Definition withEnv (e : gmap string string) (w : World) : World :=
  mkWorld e (cwd w) (bun w) (pathExistsSync w) (packageConfig w)
    (detectTsNode w) (absolutePath w) (normalizePath w) (createLoader w)
    (toNumber w) (requireFrom w) (ORMVersion w) (requireVersion w)
    (cyan w) (yellow w) (green w).

(** One file on disk, at [path], exporting [exported]. *)
Definition withFile (path : string) (exported : value) (w : World) : World :=
  mkWorld (env w) (cwd w) (bun w) (fun p => String.eqb p path) (packageConfig w)
    (detectTsNode w) (absolutePath w) (normalizePath w)
    (fun _ _ p => if String.eqb p path then exported else VUndefined)
    (toNumber w) (requireFrom w) (ORMVersion w) (requireVersion w)
    (cyan w) (yellow w) (green w).

Definition withPackage (pkg : PackageConfig) (versions : string -> option string)
    (w : World) : World :=
  mkWorld (env w) (cwd w) (bun w) (pathExistsSync w) pkg
    (detectTsNode w) (absolutePath w) (normalizePath w) (createLoader w)
    (toNumber w) (requireFrom w) (ORMVersion w) versions
    (cyan w) (yellow w) (green w).

(** The override of the environment names a TypeScript file; nothing else
    is set. *)
Definition tsOverride : World :=
  withEnv {[ "MIKRO_ORM_CLI_CONFIG" := "./orm.config.ts" ]} bare.

(** A project with a config file, two variables in the environment and no
    manifest. *)
Definition shopConfig : gmap string value :=
  list_to_map [
    ("dbName", VStr "file");
    ("host", VStr "db.local");
    ("migrations", VObj {[ "path" := VStr "./migrations" ]})
  ].

Definition shop : World :=
  withEnv (list_to_map [("MIKRO_ORM_DB_NAME", "env");
                        ("MIKRO_ORM_MIGRATIONS_TABLE_NAME", "history")])
    (withFile "/app/./mikro-orm.config.js" (VObj shopConfig) bare).

Definition shopOptions : gmap string value :=
  list_to_map [("dbName", VStr "options"); ("host", VStr "localhost")].

(** A factory that answers every context name with an empty array. *)
Definition arrayFactory : value := VFun (fun _ => VArr []).

(** A manifest with the core package, two companions, an exception and a
    foreign package; the MySQL driver is one minor version behind, the
    version of the migrations package cannot be determined. *)
Definition mixedManifest : PackageConfig :=
  mkPackageConfig emptySettings None
    (Some ["@mikro-orm/core"; "@mikro-orm/nestjs"; "@mikro-orm/migrations";
           "@mikro-orm/mysql"; "express"])
    (Some ["@mikro-orm/cli"]).

Definition mixedVersions (name : string) : option string :=
  if String.eqb name "@mikro-orm/mysql" then Some "6.3.0"
  else if String.eqb name "@mikro-orm/cli" then Some "6.4.0"
  else if String.eqb name "@mikro-orm/nestjs" then Some "5.0.0"
  else None.

Definition mixed : World := withPackage mixedManifest mixedVersions bare.

Definition mixedBypassed : World :=
  withEnv {[ "MIKRO_ORM_ALLOW_VERSION_MISMATCH" := "1" ]} mixed.

End Sample.

(** ** getPackageConfig (lines 180-198) *)

(** The two calls of [getPackageConfig] on the file system besides
    [pathExistsSync]: [readJSONSync], which gives the manifest as the loader
    reads it, or [None] when it throws, and [realpathSync]. *)
Record ManifestFiles : Type := mkManifestFiles {
  readJSONSync : string -> option PackageConfig;
  realpathSync : string -> string;
}.

(** The walk towards the root folder; [fuel] bounds the number of folders
    visited, and [None] says that it was used up. *)
Fixpoint getPackageConfig (fuel : nat) (w : World) (fs : ManifestFiles)
    (basePath : string) : option PackageConfig :=
  match fuel with
  | O => None
  | S fuel' =>
      if pathExistsSync w (basePath +:+ "/package.json") then
        match readJSONSync fs (basePath +:+ "/package.json") with
        | Some config => Some config
        | None => Some emptyPackageConfig
        end
      else
        let parentFolder := realpathSync fs (basePath +:+ "/..") in
        if String.eqb basePath parentFolder then Some emptyPackageConfig
        else getPackageConfig fuel' w fs parentFolder
  end.

(** The folder [n] levels above [basePath]. *)
Fixpoint ancestor (fs : ManifestFiles) (n : nat) (basePath : string) : string :=
  match n with
  | O => basePath
  | S n' => ancestor fs n' (realpathSync fs (basePath +:+ "/.."))
  end.

(** The walk passes the first [n] folders: none of them holds a manifest
    and none of them is the root folder. *)
Definition passes (w : World) (fs : ManifestFiles) (n : nat) (basePath : string) : Prop :=
  ∀ i, i < n →
    pathExistsSync w (ancestor fs i basePath +:+ "/package.json") = false
    ∧ ancestor fs (S i) basePath ≠ ancestor fs i basePath.

(** ** registerDotenv (lines 300-312) *)

(** The file that is read: [MIKRO_ORM_ENV], or [.env] in the base
    directory. *)
Definition dotenvPath (w : World) (baseDir : option string) : string :=
  match env w !! "MIKRO_ORM_ENV" with
  | Some path => path
  | None => default (cwd w) baseDir +:+ "/.env"
  end.

(** One round of the loop: [process.env[key] ??= env[key]] for a key that
    starts with [MIKRO_ORM_]. *)
Definition propagate (key val : string) (processEnv : gmap string string)
    : gmap string string :=
  if Js.startsWith key "MIKRO_ORM_" then
    match processEnv !! key with
    | Some _ => processEnv
    | None => <[key := val]> processEnv
    end
  else processEnv.

(** [registerDotenv]: [dotenvConfig path] is what [dotenv.config] parses
    from the file at [path] (nothing when there is no such file), [baseDir]
    is the base directory of the options; the result is [process.env]
    afterwards. *)
Definition registerDotenv (w : World) (dotenvConfig : string -> gmap string string)
    (baseDir : option string) : gmap string string :=
  let path := dotenvPath w baseDir in
  let fileEnv := dotenvConfig path in
  map_fold propagate (env w) fileEnv.

(** ** The variables [loadEnvironmentVars] reads *)

(** The mappers of [read]. *)
Inductive Mapper : Type :=
| AsString    (* the default, v => v *)
| AsArray     (* array *)
| AsNumber    (* num *)
| AsBoolean.  (* toBoolean *)

Definition mapperOf (w : World) (m : Mapper) : string -> value :=
  match m with
  | AsString => VStr
  | AsArray => array
  | AsNumber => num w
  | AsBoolean => asBoolean
  end.

#[global] Instance Mapper_eq_dec : EqDecision Mapper.
Proof. solve_decision. Defined.

(** One call [read(o, envKey, key, mapper)]. *)
Record EnvVar : Type := mkEnvVar {
  envKey : string;
  optionKey : string;
  mapper : Mapper;
}.

#[global] Instance EnvVar_eq_dec : EqDecision EnvVar.
Proof. solve_decision. Defined.

(** The calls on [ret] that follow the one for the driver (lines 344-369). *)
Definition topLevelVars : list EnvVar := [
  mkEnvVar "MIKRO_ORM_ENTITIES" "entities" AsArray;
  mkEnvVar "MIKRO_ORM_ENTITIES_TS" "entitiesTs" AsArray;
  mkEnvVar "MIKRO_ORM_CLIENT_URL" "clientUrl" AsString;
  mkEnvVar "MIKRO_ORM_HOST" "host" AsString;
  mkEnvVar "MIKRO_ORM_PORT" "port" AsNumber;
  mkEnvVar "MIKRO_ORM_USER" "user" AsString;
  mkEnvVar "MIKRO_ORM_PASSWORD" "password" AsString;
  mkEnvVar "MIKRO_ORM_DB_NAME" "dbName" AsString;
  mkEnvVar "MIKRO_ORM_SCHEMA" "schema" AsString;
  mkEnvVar "MIKRO_ORM_LOAD_STRATEGY" "loadStrategy" AsString;
  mkEnvVar "MIKRO_ORM_BATCH_SIZE" "batchSize" AsNumber;
  mkEnvVar "MIKRO_ORM_USE_BATCH_INSERTS" "useBatchInserts" AsBoolean;
  mkEnvVar "MIKRO_ORM_USE_BATCH_UPDATES" "useBatchUpdates" AsBoolean;
  mkEnvVar "MIKRO_ORM_STRICT" "strict" AsBoolean;
  mkEnvVar "MIKRO_ORM_VALIDATE" "validate" AsBoolean;
  mkEnvVar "MIKRO_ORM_ALLOW_GLOBAL_CONTEXT" "allowGlobalContext" AsBoolean;
  mkEnvVar "MIKRO_ORM_AUTO_JOIN_ONE_TO_ONE_OWNER" "autoJoinOneToOneOwner" AsBoolean;
  mkEnvVar "MIKRO_ORM_POPULATE_AFTER_FLUSH" "populateAfterFlush" AsBoolean;
  mkEnvVar "MIKRO_ORM_FORCE_ENTITY_CONSTRUCTOR" "forceEntityConstructor" AsBoolean;
  mkEnvVar "MIKRO_ORM_FORCE_UNDEFINED" "forceUndefined" AsBoolean;
  mkEnvVar "MIKRO_ORM_FORCE_UTC_TIMEZONE" "forceUtcTimezone" AsBoolean;
  mkEnvVar "MIKRO_ORM_TIMEZONE" "timezone" AsString;
  mkEnvVar "MIKRO_ORM_ENSURE_INDEXES" "ensureIndexes" AsBoolean;
  mkEnvVar "MIKRO_ORM_IMPLICIT_TRANSACTIONS" "implicitTransactions" AsBoolean;
  mkEnvVar "MIKRO_ORM_DEBUG" "debug" AsBoolean;
  mkEnvVar "MIKRO_ORM_COLORS" "colors" AsBoolean
].

Definition discoveryVars : list EnvVar := [
  mkEnvVar "MIKRO_ORM_DISCOVERY_WARN_WHEN_NO_ENTITIES" "warnWhenNoEntities" AsBoolean;
  mkEnvVar "MIKRO_ORM_DISCOVERY_REQUIRE_ENTITIES_ARRAY" "requireEntitiesArray" AsBoolean;
  mkEnvVar "MIKRO_ORM_DISCOVERY_ALWAYS_ANALYSE_PROPERTIES" "alwaysAnalyseProperties" AsBoolean;
  mkEnvVar "MIKRO_ORM_DISCOVERY_DISABLE_DYNAMIC_FILE_ACCESS" "disableDynamicFileAccess" AsBoolean
].

Definition migrationsVars : list EnvVar := [
  mkEnvVar "MIKRO_ORM_MIGRATIONS_TABLE_NAME" "tableName" AsString;
  mkEnvVar "MIKRO_ORM_MIGRATIONS_PATH" "path" AsString;
  mkEnvVar "MIKRO_ORM_MIGRATIONS_PATH_TS" "pathTs" AsString;
  mkEnvVar "MIKRO_ORM_MIGRATIONS_GLOB" "glob" AsString;
  mkEnvVar "MIKRO_ORM_MIGRATIONS_TRANSACTIONAL" "transactional" AsBoolean;
  mkEnvVar "MIKRO_ORM_MIGRATIONS_DISABLE_FOREIGN_KEYS" "disableForeignKeys" AsBoolean;
  mkEnvVar "MIKRO_ORM_MIGRATIONS_ALL_OR_NOTHING" "allOrNothing" AsBoolean;
  mkEnvVar "MIKRO_ORM_MIGRATIONS_DROP_TABLES" "dropTables" AsBoolean;
  mkEnvVar "MIKRO_ORM_MIGRATIONS_SAFE" "safe" AsBoolean;
  mkEnvVar "MIKRO_ORM_MIGRATIONS_SILENT" "silent" AsBoolean;
  mkEnvVar "MIKRO_ORM_MIGRATIONS_EMIT" "emit" AsString;
  mkEnvVar "MIKRO_ORM_MIGRATIONS_SNAPSHOT" "snapshot" AsBoolean;
  mkEnvVar "MIKRO_ORM_MIGRATIONS_SNAPSHOT_NAME" "snapshotName" AsString
].

Definition schemaGeneratorVars : list EnvVar := [
  mkEnvVar "MIKRO_ORM_SCHEMA_GENERATOR_DISABLE_FOREIGN_KEYS" "disableForeignKeys" AsBoolean;
  mkEnvVar "MIKRO_ORM_SCHEMA_GENERATOR_CREATE_FOREIGN_KEY_CONSTRAINTS" "createForeignKeyConstraints" AsBoolean
].

Definition seederVars : list EnvVar := [
  mkEnvVar "MIKRO_ORM_SEEDER_PATH" "path" AsString;
  mkEnvVar "MIKRO_ORM_SEEDER_PATH_TS" "pathTs" AsString;
  mkEnvVar "MIKRO_ORM_SEEDER_GLOB" "glob" AsString;
  mkEnvVar "MIKRO_ORM_SEEDER_EMIT" "emit" AsString;
  mkEnvVar "MIKRO_ORM_SEEDER_DEFAULT_SEEDER" "defaultSeeder" AsString
].

(** The calls of a table, one after the other, on the object [o]. *)
Definition readAll (w : World) (table : list EnvVar) (o : gmap string value)
    : gmap string value :=
  fold_left (fun o v => read w o (envKey v) (optionKey v) (mapperOf w (mapper v))) table o.

(** Lines 371-405: the four sub-objects are attached and the empty ones
    removed again. *)
Definition attachNamespaces (w : World) (ret : gmap string value) : gmap string value :=
  let ret := cleanup (<["discovery" := VObj (loadDiscovery w)]> ret) "discovery" in
  let ret := cleanup (<["migrations" := VObj (loadMigrations w)]> ret) "migrations" in
  let ret := cleanup (<["schemaGenerator" := VObj (loadSchemaGenerator w)]> ret) "schemaGenerator" in
  cleanup (<["seeder" := VObj (loadSeeder w)]> ret) "seeder".

(** The four sub-objects: their key, their variables, how they are read. *)
Definition namespaces (w : World) : list (string * list EnvVar * gmap string value) := [
  ("discovery", discoveryVars, loadDiscovery w);
  ("migrations", migrationsVars, loadMigrations w);
  ("schemaGenerator", schemaGeneratorVars, loadSchemaGenerator w);
  ("seeder", seederVars, loadSeeder w)
].

(** Every variable the decoder looks at. *)
Definition knownEnvVars : list string :=
  "MIKRO_ORM_BASE_DIR" :: "MIKRO_ORM_TYPE"
  :: (envKey <$> topLevelVars ++ discoveryVars ++ migrationsVars
                 ++ schemaGeneratorVars ++ seederVars).

(** Every key the decoder can set on [ret]. *)
Definition decodedKeys : list string :=
  "baseDir" :: "driver" :: (optionKey <$> topLevelVars)
  ++ ["discovery"; "migrations"; "schemaGenerator"; "seeder"].

(** What [Sample.shop] has in its environment, decoded. *)
Definition shopDecoded : gmap string value :=
  list_to_map [("dbName", VStr "env");
               ("migrations", VObj {[ "tableName" := VStr "history" ]})].

(** The variables [getSettings] reads for the fields of [Settings]. *)
Definition settingsEnvVars : list string := [
  "MIKRO_ORM_CLI_TS_CONFIG_PATH"; "MIKRO_ORM_CLI_VERBOSE";
  "MIKRO_ORM_CLI_USE_TS_NODE"; "MIKRO_ORM_CLI_ALWAYS_ALLOW_TS";
  "MIKRO_ORM_CLI_LOADER"
].

(** What is in [process.env] for [key] once a [.env] file that gives
    [fileEnv] was registered on top of [processEnv]. *)
Definition afterDotenv (processEnv fileEnv : gmap string string) (key : string)
    : option string :=
  match processEnv !! key with
  | Some v => Some v
  | None => if Js.startsWith key "MIKRO_ORM_" then fileEnv !! key else None
  end.

(** A [.env] file with a database name, a host and a variable that is not
    the loader's. *)
Definition shopDotenv : gmap string string :=
  list_to_map [("MIKRO_ORM_DB_NAME", "dotenv"); ("MIKRO_ORM_HOST", "db.internal");
               ("NODE_ENV", "production")].

(** A file system with a manifest in [/app] that cannot be parsed and a good
    one in the root folder; the parent of [/app/src] is [/app], the parent
    of [/app] is the root, which is its own parent. *)
Definition nestedManifests : ManifestFiles := {|
  readJSONSync := fun path =>
    if String.eqb path "/package.json"
    then Some (mkPackageConfig emptySettings (Some "module") None None)
    else None;
  realpathSync := fun path =>
    if String.eqb path "/app/src/.." then "/app" else "";
|}.

(** Only [/app/package.json] exists. *)
Definition withManifests : World :=
  Sample.withFile "/app/package.json" VUndefined Sample.bare.

(** [ImportCall] as a test on events. *)
Definition isImportCall (ev : Event) : bool :=
  match ev with
  | ImportCall _ => true
  | ExistsCall _ => false
  end.

(** The number of separators in a string. *)
Fixpoint countChar (sep : ascii) (s : string) : nat :=
  match s with
  | EmptyString => 0
  | String c s' => (if Ascii.eqb c sep then 1 else 0) + countChar sep s'
  end.

(** [Sample.shop] after its [.env] file was registered, decoded. *)
Definition shopDotenvDecoded : gmap string value :=
  list_to_map [("dbName", VStr "env"); ("host", VStr "db.internal");
               ("migrations", VObj {[ "tableName" := VStr "history" ]})].

(** The bare project under the bun runtime, with [useTsNode] turned off in
    the environment. *)
Definition underBun : World :=
  mkWorld {[ "MIKRO_ORM_CLI_USE_TS_NODE" := "false" ]} "/app" (Some "1.1.0")
    (fun _ => false) emptyPackageConfig false (fun p => "/app/" +:+ p) (fun p => p)
    (fun _ _ _ => VUndefined) (fun _ => VUndefined) (fun _ => Throw "Cannot find module")
    "6.4.0" (fun _ => None) (fun s => s) (fun s => s) (fun s => s).


(** Two configurations that name their context. *)
Definition namedA : value := VObj {[ "contextName" := VStr "a" ]}.

Definition namedB : value := VObj {[ "contextName" := VStr "b" ]}.

(** The string starts with a white-space character, of one, two or three
    bytes. *)
Definition startsWithSpace (s : string) : bool :=
  match s with
  | EmptyString => false
  | String c1 r1 =>
      Js.isSpace c1
      || match r1 with
         | EmptyString => false
         | String c2 r2 =>
             Js.isSpace2 c1 c2
             || match r2 with
                | EmptyString => false
                | String c3 _ => Js.isSpace3 c1 c2 c3
                end
         end
  end.

(** * Properties *)

(** ** Strings *)

Lemma includes_true l x : Js.includes l x = true ↔ x ∈ l.
Proof. unfold Js.includes. apply bool_decide_eq_true. Qed.

Lemma includes_false l x : Js.includes l x = false ↔ x ∉ l.
Proof. unfold Js.includes. apply bool_decide_eq_false. Qed.

(** The two tables hold lower-case strings only, and share none. *)
Lemma falsyStrings_lower s : s ∈ falsyStrings → Js.toLowerCase s = s.
Proof.
  unfold falsyStrings. intros H.
  repeat (apply elem_of_cons in H as [-> | H]; [reflexivity |]).
  by apply elem_of_nil in H.
Qed.

Lemma truthyStrings_lower s : s ∈ truthyStrings → Js.toLowerCase s = s.
Proof.
  unfold truthyStrings. intros H.
  repeat (apply elem_of_cons in H as [-> | H]; [reflexivity |]).
  by apply elem_of_nil in H.
Qed.

Lemma truthy_not_falsy s : s ∈ truthyStrings → s ∉ falsyStrings.
Proof.
  unfold truthyStrings. intros H.
  repeat (apply elem_of_cons in H as [-> | H]; [compute_done |]).
  by apply elem_of_nil in H.
Qed.

Lemma sameIgnoringCase_falsy value s :
  s ∈ falsyStrings → Js.sameIgnoringCase value s → Js.toLowerCase value ∈ falsyStrings.
Proof. intros Hs Hc. red in Hc. rewrite Hc, falsyStrings_lower; done. Qed.

Lemma sameIgnoringCase_truthy value s :
  s ∈ truthyStrings → Js.sameIgnoringCase value s → Js.toLowerCase value ∈ truthyStrings.
Proof. intros Hs Hc. red in Hc. rewrite Hc, truthyStrings_lower; done. Qed.

(** What [toBoolean] does get right: a truthy string spelled as in the table
    decodes to [true], and a falsy string decodes to [false] in every
    casing. *)
Lemma toBoolean_truthy_exact s : s ∈ truthyStrings → toBoolean s = true.
Proof. intros H. by apply includes_true. Qed.

Lemma toBoolean_falsy_any_case value s :
  s ∈ falsyStrings → Js.sameIgnoringCase value s → toBoolean value = false.
Proof.
  intros Hs Hc. apply includes_false. intros Hv.
  pose proof (truthyStrings_lower _ Hv) as Hl.
  apply (truthy_not_falsy value Hv).
  rewrite <- Hl. by eapply sameIgnoringCase_falsy.
Qed.

(** C9: the decoder of the loader option maps every casing of a falsy string
    to [false], every casing of a truthy string to ['auto'], and returns any
    other string as it is; being a total function it never raises. *)
Theorem loaderOptionFromEnv_decodes (value : string) :
  (∀ s, s ∈ falsyStrings → Js.sameIgnoringCase value s →
        loaderOptionFromEnv value = LoaderFalse) ∧
  (∀ s, s ∈ truthyStrings → Js.sameIgnoringCase value s →
        loaderOptionFromEnv value = LoaderName "auto") ∧
  ((∀ s, s ∈ falsyStrings ∨ s ∈ truthyStrings → ¬ Js.sameIgnoringCase value s) →
        loaderOptionFromEnv value = LoaderName value).
Proof.
  unfold loaderOptionFromEnv. split; [| split].
  - intros s Hs Hc.
    pose proof (sameIgnoringCase_falsy _ _ Hs Hc) as Hin.
    apply includes_true in Hin. by rewrite Hin.
  - intros s Hs Hc.
    pose proof (sameIgnoringCase_truthy _ _ Hs Hc) as Hin.
    pose proof (truthy_not_falsy _ Hin) as Hnot.
    apply includes_true in Hin. apply includes_false in Hnot.
    by rewrite Hnot, Hin.
  - intros Hnone.
    assert (Js.toLowerCase value ∉ falsyStrings) as Hf.
    { intros Hin. apply (Hnone (Js.toLowerCase value)); [by left |].
      red. by rewrite (falsyStrings_lower _ Hin). }
    assert (Js.toLowerCase value ∉ truthyStrings) as Ht.
    { intros Hin. apply (Hnone (Js.toLowerCase value)); [by right |].
      red. by rewrite (truthyStrings_lower _ Hin). }
    apply includes_false in Hf, Ht. by rewrite Hf, Ht.
Qed.

Lemma loaderOptionFromEnv_decodes_witness :
  loaderOptionFromEnv "No" = LoaderFalse
  ∧ loaderOptionFromEnv "YES" = LoaderName "auto"
  ∧ loaderOptionFromEnv "Jiti" = LoaderName "Jiti".
Proof.
  split; [| split].
  - apply (proj1 (loaderOptionFromEnv_decodes "No") "no").
    + compute_done.
    + reflexivity.
  - apply (proj1 (proj2 (loaderOptionFromEnv_decodes "YES")) "yes").
    + compute_done.
    + reflexivity.
  - apply (proj2 (proj2 (loaderOptionFromEnv_decodes "Jiti"))).
    intros s [H | H] Hc; unfold falsyStrings, truthyStrings in H;
      repeat (apply elem_of_cons in H as [-> | H]; [by vm_compute in Hc |]);
      by apply elem_of_nil in H.
Defined.

(** C4: [toBoolean] compares with the table of truthy strings as they are
    spelled, without folding the case first: [TRUE] is a casing of the
    truthy string [true] and is decoded to [false], by [toBoolean], by
    [getSettings] for [MIKRO_ORM_CLI_VERBOSE] and by [loadEnvironmentVars]
    for [MIKRO_ORM_DEBUG], while [loaderOptionFromEnv] takes it for a truthy
    string. *)
Theorem toBoolean_upper_case_is_false :
  "true" ∈ truthyStrings
  ∧ Js.sameIgnoringCase "TRUE" "true"
  ∧ toBoolean "TRUE" = false
  ∧ loaderOptionFromEnv "TRUE" = LoaderName "auto"
  ∧ verbose (getSettings (Sample.withEnv {[ "MIKRO_ORM_CLI_VERBOSE" := "Yes" ]} Sample.bare))
    = Some false
  ∧ ∃ decoded,
      loadEnvironmentVars
        (Sample.withEnv {[ "MIKRO_ORM_DEBUG" := "TRUE" ]} Sample.bare) = Ok decoded
      ∧ decoded !! "debug" = Some (VBool false).
Proof.
  split; [compute_done |].
  do 4 (split; [reflexivity |]).
  eexists. split; [vm_compute; reflexivity |]. reflexivity.
Qed.

(** ** Utils.unique *)

Lemma uniqueGo_elem_of seen items x :
  x ∈ Utils.uniqueGo seen items ↔ x ∈ items ∧ x ∉ seen.
Proof.
  revert seen. induction items as [| y items IH]; intros seen; simpl.
  - split; [by intros ?%elem_of_nil | by intros [?%elem_of_nil _]].
  - case_bool_decide as Hy.
    + rewrite IH, elem_of_cons. split; [intros [Hin Hnot]; by split; [right |] |].
      intros [[-> | Hin] Hnot]; [done | by split].
    + rewrite !elem_of_cons, IH, not_elem_of_cons. split.
      * intros [-> | (Hin & Hne & Hnot)]; [by split; [left |] | by split; [right |]].
      * intros [[-> | Hin] Hnot]; [by left |].
        destruct (decide (x = y)) as [-> | Hne]; [by left | by right].
Qed.

Lemma uniqueGo_NoDup seen items : NoDup (Utils.uniqueGo seen items).
Proof.
  revert seen. induction items as [| y items IH]; intros seen; simpl.
  - constructor.
  - case_bool_decide as Hy; [apply IH |].
    constructor; [| apply IH].
    rewrite uniqueGo_elem_of, not_elem_of_cons. intros (_ & Hne & _). by apply Hne.
Qed.

Lemma uniqueGo_sublist seen items : Utils.uniqueGo seen items `sublist_of` items.
Proof.
  revert seen. induction items as [| y items IH]; intros seen; simpl; [done |].
  case_bool_decide; [apply sublist_cons, IH | apply sublist_skip, IH].
Qed.

(** The first occurrence of an element is the one that is kept: it follows
    what is kept of the elements before it. *)
Lemma uniqueGo_first_occurrence seen before x after :
  x ∉ before → x ∉ seen →
  ∃ rest, Utils.uniqueGo seen (before ++ x :: after)
          = Utils.uniqueGo seen before ++ x :: rest.
Proof.
  revert seen. induction before as [| y before IH]; intros seen Hb Hs; simpl.
  - rewrite bool_decide_eq_false_2 by done. eauto.
  - apply not_elem_of_cons in Hb as [Hne Hb].
    case_bool_decide as Hy.
    + by apply IH.
    + destruct (IH (y :: seen)) as [rest Hrest]; [done | |].
      { rewrite not_elem_of_cons. by split. }
      exists rest. by rewrite Hrest.
Qed.

Lemma unique_elem_of items x : x ∈ Utils.unique items ↔ x ∈ items.
Proof.
  unfold Utils.unique. rewrite uniqueGo_elem_of. split; [by intros [Hin _] |].
  intros H. split; [done | apply not_elem_of_nil].
Qed.

(** ** getConfigPaths *)

Lemma getConfigPaths_unfold w :
  getConfigPaths w
  = filter (fun p => Is_true (Spec.loadable w p)) (Utils.unique (Spec.candidatePaths w)).
Proof.
  unfold getConfigPaths, Spec.candidatePaths, Spec.loadable, push.
  f_equal. f_equal.
  assert ((if Js.truthy (env w !! "MIKRO_ORM_CLI_CONFIG")
           then [] ++ option_list (env w !! "MIKRO_ORM_CLI_CONFIG") else [])
          = Spec.overridePath w) as ->.
  { unfold Spec.overridePath. destruct (env w !! "MIKRO_ORM_CLI_CONFIG") as [p |]; simpl; [| done].
    destruct (String.eqb_spec p ""); simpl; by case_decide. }
  assert (configPaths (getSettings w) = configPaths (pkgSettings (packageConfig w))) as ->
    by reflexivity.
  fold (Spec.manifestPaths w). fold (Spec.outputDir w).
  assert (notFalse (useTsNode (getSettings w))
          = bool_decide (useTsNode (getSettings w) ≠ Some false)) as ->.
  { destruct (useTsNode (getSettings w)) as [[] |]; reflexivity. }
  unfold Spec.sourceCandidates, Spec.compiledCandidates.
  destruct (_ || _); simpl; by rewrite <- ?app_assoc.
Qed.

Lemma getConfigPaths_elem_of w p :
  p ∈ getConfigPaths w ↔
  p ∈ Spec.candidatePaths w
  ∧ (Js.endsWith p ".js" = true ∨ detectTsNode w = true ∨ forceAllowTs w = true).
Proof.
  rewrite getConfigPaths_unfold, list_elem_of_filter, unique_elem_of.
  unfold Spec.loadable. rewrite Is_true_true, !orb_true_iff. tauto.
Qed.

(** C5: the candidates are the override of the environment, the manifest's
    paths, the TypeScript sources (unless disabled and not force-allowed) and
    the compiled files, in this order; duplicates go, the first occurrence
    stays in its place; a path is kept exactly when it ends in [.js], a
    TypeScript loader is detected, or TypeScript is force-allowed. *)
Theorem getConfigPaths_candidates (w : World) :
  getConfigPaths w
  = filter (fun p => Is_true (Spec.loadable w p)) (Utils.unique (Spec.candidatePaths w))
  ∧ NoDup (getConfigPaths w)
  ∧ getConfigPaths w `sublist_of` Spec.candidatePaths w
  ∧ (∀ p, p ∈ getConfigPaths w ↔
          p ∈ Spec.candidatePaths w
          ∧ (Js.endsWith p ".js" = true ∨ detectTsNode w = true ∨ forceAllowTs w = true))
  ∧ (∀ before p after,
        Spec.candidatePaths w = before ++ p :: after → p ∉ before →
        Spec.loadable w p = true →
        ∃ rest, getConfigPaths w
                = filter (fun p => Is_true (Spec.loadable w p)) (Utils.unique before)
                  ++ p :: rest).
Proof.
  split; [apply getConfigPaths_unfold |].
  split; [| split; [| split; [apply getConfigPaths_elem_of |]]];
    rewrite getConfigPaths_unfold.
  - apply NoDup_filter, uniqueGo_NoDup.
  - etrans; [apply sublist_filter | apply uniqueGo_sublist].
  - intros before p after Heq Hfirst Hkeep.
    destruct (uniqueGo_first_occurrence [] before p after Hfirst) as [rest Hrest];
      [apply not_elem_of_nil |].
    unfold Utils.unique. rewrite Heq, Hrest, filter_app, filter_cons.
    rewrite decide_True by (by apply Is_true_true). eauto.
Qed.

Lemma getConfigPaths_candidates_witness :
  getConfigPaths (Sample.withEnv {[ "MIKRO_ORM_CLI_CONFIG" := "./mikro-orm.config.js" ]}
                    Sample.bare)
  = ["./mikro-orm.config.js"; "./src/mikro-orm.config.js"].
Proof.
  set (w := Sample.withEnv _ _).
  destruct (getConfigPaths_candidates w) as (Heq & _).
  rewrite Heq. reflexivity.
Defined.

(** ** The override of the environment and TypeScript *)

(** A path that ends in [.ts] is set (not empty) and does not end in
    [.js]. *)
Lemma prefix_String a s1 b s2 :
  String.prefix (String a s1) (String b s2)
  = if Ascii.ascii_dec a b then String.prefix s1 s2 else false.
Proof. reflexivity. Qed.

Lemma endsWith_ts p :
  Js.endsWith p ".ts" = true → p ≠ "" ∧ Js.endsWith p ".js" = false.
Proof.
  unfold Js.endsWith. intros H. split.
  - intros ->. discriminate H.
  - change (String.rev ".ts") with "st." in H.
    change (String.rev ".js") with "sj.".
    destruct (String.rev p) as [| c1 [| c2 r]]; [discriminate H | |].
    + rewrite prefix_String in H. by destruct (Ascii.ascii_dec "s" c1).
    + rewrite !prefix_String in H. rewrite !prefix_String.
      destruct (Ascii.ascii_dec "s" c1); [| done].
      destruct (Ascii.ascii_dec "t" c2) as [<- |]; [| done].
      by destruct (Ascii.ascii_dec "j" "t").
Qed.

Lemma getSettings_ts_override w p :
  env w !! "MIKRO_ORM_CLI_CONFIG" = Some p → Js.endsWith p ".ts" = true →
  useTsNode (getSettings w) = Some true.
Proof. intros He Hts. unfold getSettings. simpl. by rewrite He, Hts. Qed.

(** C6, as the code has it: an override that ends in [.ts] forces
    [useTsNode] to [true], so the TypeScript sources are candidates whatever
    the manifest and [MIKRO_ORM_CLI_USE_TS_NODE] say; the override itself is
    a candidate too, and a candidate that does not end in [.js] passes the
    final filter exactly when a TypeScript loader is detected or TypeScript
    is force-allowed. *)
Theorem ts_override_forces_useTsNode (w : World) (p : string) :
  env w !! "MIKRO_ORM_CLI_CONFIG" = Some p →
  Js.endsWith p ".ts" = true →
  useTsNode (getSettings w) = Some true
  ∧ p ∈ Spec.candidatePaths w
  ∧ "./src/mikro-orm.config.ts" ∈ Spec.candidatePaths w
  ∧ "./mikro-orm.config.ts" ∈ Spec.candidatePaths w
  ∧ (p ∈ getConfigPaths w ↔ detectTsNode w = true ∨ forceAllowTs w = true).
Proof.
  intros He Hts.
  pose proof (getSettings_ts_override w p He Hts) as Huse.
  destruct (endsWith_ts p Hts) as [Hne Hjs].
  assert (p ∈ Spec.candidatePaths w) as Hp.
  { unfold Spec.candidatePaths, Spec.overridePath. rewrite He.
    rewrite decide_False by done. apply elem_of_app. left. apply elem_of_cons. by left. }
  assert (Spec.sourceCandidates w = ["./src/mikro-orm.config.ts"; "./mikro-orm.config.ts"])
    as Hsrc.
  { unfold Spec.sourceCandidates. by rewrite Huse. }
  split; [done |]. split; [done |]. split; [| split].
  - unfold Spec.candidatePaths. rewrite Hsrc, !elem_of_app. right. right. left.
    apply elem_of_cons. by left.
  - unfold Spec.candidatePaths. rewrite Hsrc, !elem_of_app. right. right. left.
    apply elem_of_cons. right. apply elem_of_cons. by left.
  - rewrite getConfigPaths_elem_of, Hjs. split; [| by split; [| right]].
    intros [_ [Hfalse | H]]; [discriminate Hfalse | done].
Qed.

Lemma ts_override_forces_useTsNode_witness :
  useTsNode (getSettings
    (Sample.withEnv (list_to_map [("MIKRO_ORM_CLI_CONFIG", "./orm.config.ts");
                                  ("MIKRO_ORM_CLI_USE_TS_NODE", "false")])
       Sample.bare))
  = Some true.
Proof.
  set (w := Sample.withEnv _ _).
  apply (ts_override_forces_useTsNode w "./orm.config.ts"); reflexivity.
Defined.

(** C6, as the specification has it, fails: with no TypeScript loader
    detected and [alwaysAllowTs] not set, an override that ends in [.ts] is
    dropped by the final filter, and only the compiled candidates remain. *)
Lemma ts_override_is_filtered_out :
  env Sample.tsOverride !! "MIKRO_ORM_CLI_CONFIG" = Some "./orm.config.ts"
  ∧ Js.endsWith "./orm.config.ts" ".ts" = true
  ∧ detectTsNode Sample.tsOverride = false
  ∧ alwaysAllowTs (getSettings Sample.tsOverride) = None
  ∧ bun Sample.tsOverride = None
  ∧ ("./orm.config.ts" ∉ getConfigPaths Sample.tsOverride)
  ∧ getConfigPaths Sample.tsOverride
    = ["./src/mikro-orm.config.js"; "./mikro-orm.config.js"].
Proof.
  repeat split; try reflexivity. compute_done.
Qed.

(** ** getConfigFile *)

Section GetConfigFile.

Context (w : World) (import : string -> value).

Lemma getConfigFileLoop_none paths :
  noneExists w paths →
  getConfigFileLoop w import paths = (None, ExistsCall <$> (resolved w <$> paths)).
Proof.
  induction 1 as [| p paths Hp _ IH]; [reflexivity |].
  simpl. unfold tbind, callPathExists. simpl.
  fold (resolved w p). by rewrite Hp, IH.
Qed.

Lemma getConfigFileLoop_first before p after :
  noneExists w before →
  pathExistsSync w (resolved w p) = true →
  getConfigFileLoop w import (before ++ p :: after)
  = (Some (resolved w p, import (resolved w p)),
     (ExistsCall <$> (resolved w <$> before ++ [p])) ++ [ImportCall (resolved w p)]).
Proof.
  intros Hnone Hp. induction Hnone as [| q before Hq _ IH].
  - simpl. unfold tbind, callPathExists, callImport. simpl.
    fold (resolved w p). by rewrite Hp.
  - simpl. unfold tbind, callPathExists. simpl.
    fold (resolved w q). by rewrite Hq, IH.
Qed.

Lemma getConfigFileLoop_imports_existing paths q :
  ImportCall q ∈ snd (getConfigFileLoop w import paths) → pathExistsSync w q = true.
Proof.
  induction paths as [| p paths IH]; simpl.
  - by intros ?%elem_of_nil.
  - unfold tbind, callPathExists, callImport. simpl. fold (resolved w p).
    destruct (pathExistsSync w (resolved w p)) eqn:Hp; simpl.
    + rewrite !elem_of_cons, elem_of_nil. intros [? | [[= ->] | []]]; done.
    + destruct (getConfigFileLoop w import paths) as [r later]. simpl in *.
      rewrite elem_of_cons. intros [? | ?]; [done | by apply IH].
Qed.

End GetConfigFile.

(** Either no candidate exists, or there is a first one that does. *)
Lemma paths_cases w paths :
  noneExists w paths
  ∨ (∃ before p after,
       paths = before ++ p :: after
       ∧ noneExists w before ∧ pathExistsSync w (resolved w p) = true).
Proof.
  induction paths as [| q rest IH]; [left; constructor |].
  destruct (pathExistsSync w (resolved w q)) eqn:Hq.
  - right. exists [], q, rest. repeat split; [constructor | done].
  - destruct IH as [Hnone | (b & p & a & -> & Hb & Hp)].
    + left. by constructor.
    + right. exists (q :: b), p, a. repeat split; [by constructor | done].
Qed.

(** C7: the paths are tested in order under their resolved form; the first
    one that exists is returned with what the loader imports from it, and
    nothing is returned when none exists.  The loader is only ever asked to
    import a path whose existence test succeeded. *)
Theorem getConfigFile_first_existing (w : World) (paths : list string)
    (basePath : string) (settings : Settings) :
  let import := createLoader w basePath settings in
  let calls := snd (getConfigFileTraced w paths basePath settings) in
  (∀ q, ImportCall q ∈ calls → pathExistsSync w q = true)
  ∧ (noneExists w paths →
       getConfigFile w paths basePath settings = None
       ∧ calls = ExistsCall <$> (resolved w <$> paths))
  ∧ (∀ before p after,
       paths = before ++ p :: after →
       noneExists w before →
       pathExistsSync w (resolved w p) = true →
       getConfigFile w paths basePath settings
       = Some (resolved w p, import (resolved w p))
       ∧ calls = (ExistsCall <$> (resolved w <$> before ++ [p]))
                 ++ [ImportCall (resolved w p)])
  (* the two cases are all there are *)
  ∧ (noneExists w paths
     ∨ (∃ before p after,
          paths = before ++ p :: after
          ∧ noneExists w before ∧ pathExistsSync w (resolved w p) = true)).
Proof.
  cbv zeta. unfold getConfigFile, getConfigFileTraced. split; [| split; [| split]].
  - intros q. apply getConfigFileLoop_imports_existing.
  - intros Hnone. by rewrite getConfigFileLoop_none.
  - intros before p after -> Hnone Hp. by rewrite getConfigFileLoop_first.
  - apply paths_cases.
Qed.

Lemma getConfigFile_first_existing_witness :
  getConfigFile (Sample.withFile "/app/./mikro-orm.config.js" (VObj ∅) Sample.bare)
    ["./src/mikro-orm.config.js"; "./mikro-orm.config.js"] "/app" emptySettings
  = Some ("/app/./mikro-orm.config.js", VObj ∅)
  ∧ getConfigFile Sample.bare
      ["./src/mikro-orm.config.js"; "./mikro-orm.config.js"] "/app" emptySettings
    = None.
Proof.
  split.
  - set (w := Sample.withFile _ _ _).
    destruct (getConfigFile_first_existing w
                ["./src/mikro-orm.config.js"; "./mikro-orm.config.js"]
                "/app" emptySettings) as (_ & _ & Hfirst & _).
    destruct (Hfirst ["./src/mikro-orm.config.js"] "./mikro-orm.config.js" [])
      as [Hres _]; [reflexivity | | reflexivity | exact Hres].
    repeat constructor.
  - destruct (getConfigFile_first_existing Sample.bare
                ["./src/mikro-orm.config.js"; "./mikro-orm.config.js"]
                "/app" emptySettings) as (_ & Hnone & _).
    apply Hnone. repeat constructor.
Defined.

(** ** Utils.mergeConfig *)

Lemma mergeValue_unfold t s :
  Utils.mergeValue (VObj t) (VObj s) = VObj (map_fold mergeEntry t s).
Proof. reflexivity. Qed.

Lemma mergeEntry_lookup key v acc k :
  mergeEntry key v acc !! k
  = if decide (key = k) then overlay (acc !! key) (Some v) else acc !! k.
Proof.
  unfold mergeEntry, overlay.
  destruct v; try (by rewrite lookup_insert).
  destruct (acc !! key) as [[] |]; by rewrite lookup_insert.
Qed.

(** Merging a mapping into a mapping is [overlay] at every key. *)
Lemma mergeValue_lookup t s :
  ∃ m, Utils.mergeValue (VObj t) (VObj s) = VObj m
       ∧ ∀ k, m !! k = overlay (t !! k) (s !! k).
Proof.
  rewrite mergeValue_unfold. eexists. split; [reflexivity |].
  apply (map_fold_weak_ind
           (fun r m => ∀ k, r !! k = overlay (t !! k) (m !! k)) mergeEntry t).
  - intros k. by rewrite lookup_empty.
  - intros i x m r Hi IH k. rewrite mergeEntry_lookup, lookup_insert.
    case_decide as Hk; [| apply IH].
    subst k. by rewrite IH, Hi.
Qed.

Lemma overlay_none lower : overlay lower None = lower.
Proof. reflexivity. Qed.

Lemma overlay_replace lower v :
  isMapping v = false → overlay lower (Some v) = Some v.
Proof. by destruct v. Qed.

Lemma overlay_over_other lower v :
  (∀ l, lower = Some l → isMapping l = false) → overlay lower (Some v) = Some v.
Proof.
  intros Hl. destruct v; try done. destruct lower as [[] |]; try done.
  by specialize (Hl _ eq_refl).
Qed.

Lemma overlay_nested lo hi :
  ∃ sub, overlay (Some (VObj lo)) (Some (VObj hi)) = Some (VObj sub)
         ∧ ∀ j, sub !! j = overlay (lo !! j) (hi !! j).
Proof.
  destruct (mergeValue_lookup lo hi) as (sub & Heq & Hsub).
  exists sub. split; [| done]. unfold overlay. by rewrite Heq.
Qed.

(** The two merges the specification gives as examples. *)
Example mergeConfig_nested_mappings :
  Utils.mergeConfig (VObj {[ "a" := VObj {[ "x" := VNum 1 ]} ]})
    [VObj {[ "a" := VObj {[ "y" := VNum 2 ]} ]}]
  = VObj {[ "a" := VObj (<[ "y" := VNum 2 ]> {[ "x" := VNum 1 ]}) ]}.
Proof. vm_compute. reflexivity. Qed.

Example mergeConfig_arrays_replace :
  Utils.mergeConfig (VObj {[ "a" := VArr [VNum 1; VNum 2] ]})
    [VObj {[ "a" := VArr [VNum 3] ]}]
  = VObj {[ "a" := VArr [VNum 3] ]}.
Proof. vm_compute. reflexivity. Qed.

(** ** getConfiguration *)

Lemma esmConfigOptions_props w : esmConfigOptions w = VObj (esmConfigProps w).
Proof. unfold esmConfigOptions, esmConfigProps. by destruct (isESM w). Qed.

Lemma getConfigFile_none w paths basePath settings :
  noneExists w paths → getConfigFile w paths basePath settings = None.
Proof.
  intros H. unfold getConfigFile, getConfigFileTraced.
  by rewrite getConfigFileLoop_none.
Qed.

(** C3: when no candidate path exists, the decoded environment decides: if
    it holds anything, the result is the merge of [{contextName}], the
    caller's options and the environment, and no file is involved; if it is
    empty, the error lists the candidate paths as they were given. *)
Theorem getConfiguration_without_file (w : World) (contextName : string)
    (paths : list string) (options decoded : gmap string value) :
  noneExists w paths →
  loadEnvironmentVars w = Ok decoded →
  (decoded ≠ ∅ →
     getConfiguration w contextName paths options
     = Ok (newConfiguration
             (Utils.mergeConfig (VObj {[ "contextName" := VStr contextName ]})
                [VObj options; VObj decoded])))
  ∧ (decoded = ∅ →
     getConfiguration w contextName paths options
     = Throw ("MikroORM config file not found in ['" +:+ Js.join "', '" paths +:+ "']")).
Proof.
  intros Hnone Henv. unfold getConfiguration.
  rewrite Henv. simpl. rewrite (getConfigFile_none _ _ _ _ Hnone). simpl.
  split; intros Hd.
  - by rewrite bool_decide_eq_false_2.
  - by rewrite bool_decide_eq_true_2.
Qed.

Lemma getConfiguration_without_file_witness :
  getConfiguration (Sample.withEnv {[ "MIKRO_ORM_DB_NAME" := "shop" ]} Sample.bare)
    "reports" ["./a.js"; "./b.js"] {[ "debug" := VBool true ]}
  = Ok (newConfiguration
          (VObj (<[ "dbName" := VStr "shop" ]>
                   (<[ "debug" := VBool true ]>
                      {[ "contextName" := VStr "reports" ]}))))
  ∧ getConfiguration Sample.bare "reports" ["./a.js"; "./b.js"] {[ "debug" := VBool true ]}
    = Throw "MikroORM config file not found in ['./a.js', './b.js']".
Proof.
  split.
  - set (w := Sample.withEnv _ _).
    destruct (getConfiguration_without_file w "reports" ["./a.js"; "./b.js"]
                {[ "debug" := VBool true ]} {[ "dbName" := VStr "shop" ]})
      as [Hsome _]; [repeat constructor | reflexivity |].
    rewrite Hsome; [vm_compute; reflexivity | compute_done].
  - destruct (getConfiguration_without_file Sample.bare "reports" ["./a.js"; "./b.js"]
                {[ "debug" := VBool true ]} ∅)
      as [_ Hnone]; [repeat constructor | reflexivity |].
    by rewrite Hnone.
Defined.

(** Four sources merged into an empty target, key by key. *)
Lemma mergeConfig_four_lookup a b c d :
  ∃ merged,
    Utils.mergeConfig (VObj ∅) [VObj a; VObj b; VObj c; VObj d] = VObj merged
    ∧ ∀ key, merged !! key
             = overlay (overlay (overlay (a !! key) (b !! key)) (c !! key)) (d !! key).
Proof.
  unfold Utils.mergeConfig. cbn [fold_left].
  destruct (mergeValue_lookup ∅ a) as (m1 & -> & H1).
  destruct (mergeValue_lookup m1 b) as (m2 & -> & H2).
  destruct (mergeValue_lookup m2 c) as (m3 & -> & H3).
  destruct (mergeValue_lookup m3 d) as (m4 & -> & H4).
  exists m4. split; [done |]. intros key.
  rewrite H4, H3, H2, H1, lookup_empty.
  by destruct (a !! key) as [[] |].
Qed.

Lemma getConfiguration_with_file w contextName paths options path exported decoded :
  getConfigFile w paths (default (cwd w) (baseDirOf options)) (getSettings w)
  = Some (path, exported) →
  path ≠ "" →
  loadEnvironmentVars w = Ok decoded →
  getConfiguration w contextName paths options
  = let* tmp := selectConfig contextName path exported in
    Ok (newConfiguration
          (Utils.mergeConfig (VObj ∅)
             [esmConfigOptions w; tmp; VObj options; VObj decoded])).
Proof.
  intros Hfile Hpath Henv. unfold getConfiguration.
  rewrite Henv. simpl. rewrite Hfile. simpl.
  destruct (String.eqb_spec path ""); [done |]. reflexivity.
Qed.

(** C1: with a file configuration [fileConfig] selected from the loaded
    file, the result is the merge, into an empty object, of the ESM flag
    object, [fileConfig], the caller's [options] and the decoded
    environment, in this order.  At every key the value is the [overlay] of
    the four sources from lowest to highest precedence, where [overlay]
    keeps the lower value under an absent higher one, lets a value that is
    not a mapping replace what was there, and merges a mapping over a
    mapping key by key. *)
Theorem getConfiguration_merge_precedence (w : World) (contextName : string)
    (paths : list string) (options : gmap string value)
    (path : string) (exported : value) (fileConfig decoded : gmap string value) :
  getConfigFile w paths (default (cwd w) (baseDirOf options)) (getSettings w)
  = Some (path, exported) →
  path ≠ "" →
  selectConfig contextName path exported = Ok (VObj fileConfig) →
  loadEnvironmentVars w = Ok decoded →
  ∃ merged,
    getConfiguration w contextName paths options = Ok (newConfiguration (VObj merged))
    ∧ VObj merged
      = Utils.mergeConfig (VObj ∅)
          [esmConfigOptions w; VObj fileConfig; VObj options; VObj decoded]
    ∧ (∀ key, merged !! key
              = overlay (overlay (overlay (esmConfigProps w !! key) (fileConfig !! key))
                                 (options !! key))
                        (decoded !! key))
    (* the environment overrides the options and the file *)
    ∧ (∀ key v, decoded !! key = Some v → isMapping v = false →
                merged !! key = Some v)
    (* the options override the file *)
    ∧ (∀ key v, decoded !! key = None → options !! key = Some v →
                isMapping v = false → merged !! key = Some v)
    (* the file overrides the ESM flag *)
    ∧ (∀ key v, decoded !! key = None → options !! key = None →
                fileConfig !! key = Some v → isMapping v = false →
                merged !! key = Some v)
    (* what [overlay] is: absent keeps, a non-mapping replaces, a mapping
       replaces what is not a mapping and merges key-wise with a mapping *)
    ∧ (∀ lower, overlay lower None = lower)
    ∧ (∀ lower v, isMapping v = false → overlay lower (Some v) = Some v)
    ∧ (∀ lower v, (∀ l, lower = Some l → isMapping l = false) →
                  overlay lower (Some v) = Some v)
    ∧ (∀ lo hi, ∃ sub, overlay (Some (VObj lo)) (Some (VObj hi)) = Some (VObj sub)
                       ∧ ∀ j, sub !! j = overlay (lo !! j) (hi !! j)).
Proof.
  intros Hfile Hpath Hsel Henv.
  destruct (mergeConfig_four_lookup (esmConfigProps w) fileConfig options decoded)
    as (merged & Hmerged & Hkeys).
  exists merged.
  rewrite (getConfiguration_with_file _ _ _ _ _ _ _ Hfile Hpath Henv), Hsel.
  cbn [bindResult]. rewrite esmConfigOptions_props, Hmerged.
  split; [done |]. split; [done |]. split; [done |].
  split; [| split; [| split]].
  - intros key v Hd Hv. by rewrite Hkeys, Hd, overlay_replace.
  - intros key v Hd Ho Hv. by rewrite Hkeys, Hd, Ho, overlay_none, overlay_replace.
  - intros key v Hd Ho Hf Hv.
    by rewrite Hkeys, Hd, Ho, Hf, !overlay_none, overlay_replace.
  - split; [apply overlay_none |]. split; [apply overlay_replace |].
    split; [apply overlay_over_other | apply overlay_nested].
Qed.

Lemma getConfiguration_merge_precedence_witness :
  ∃ merged,
    getConfiguration Sample.shop "default" ["./mikro-orm.config.js"] Sample.shopOptions
    = Ok (newConfiguration (VObj merged))
    ∧ merged !! "dbName" = Some (VStr "env")
    ∧ merged !! "host" = Some (VStr "localhost").
Proof.
  destruct (getConfiguration_merge_precedence Sample.shop "default"
              ["./mikro-orm.config.js"] Sample.shopOptions
              "/app/./mikro-orm.config.js" (VObj Sample.shopConfig) Sample.shopConfig
              (list_to_map [("dbName", VStr "env");
                            ("migrations", VObj {[ "tableName" := VStr "history" ]})]))
    as (merged & Hres & _ & _ & Henv & Hopt & _);
    [reflexivity | discriminate | reflexivity | vm_compute; reflexivity |].
  exists merged. split; [exact Hres |]. split.
  - apply Henv; reflexivity.
  - apply Hopt; reflexivity.
Defined.

(** ** Selecting from an exported array *)

Section ArraySearch.

Context (f : value -> bool).

Lemma findIndex_cons cfg rest :
  findIndex f (cfg :: rest) = if f cfg then Some 0 else S <$> findIndex f rest.
Proof.
  unfold findIndex. cbn [list_find]. destruct (f cfg); [reflexivity |].
  cbn. by destruct (list_find _ rest) as [[] |].
Qed.


Lemma findIndex_none entries :
  Forall (fun c => f c = false) entries → findIndex f entries = None.
Proof.
  induction 1 as [| c entries Hf _ IH]; [reflexivity |].
  by rewrite findIndex_cons, Hf, IH.
Qed.



End ArraySearch.


Lemma tryFactories_first contextName before g after tmp :
  Forall (passedBy contextName) before →
  isValidConfigFactoryResult contextName (g contextName) = true →
  tryFactories contextName (before ++ VFun g :: after) tmp = g contextName.
Proof.
  intros Hb Hg. induction Hb as [| e before He _ IH]; simpl.
  - by rewrite Hg.
  - destruct e; try exact IH. simpl in He. by rewrite He.
Qed.



Lemma selectConfig_array_factory contextName path before g after :
  noMatch contextName (before ++ VFun g :: after) →
  Forall (passedBy contextName) before →
  isValidConfigFactoryResult contextName (g contextName) = true →
  isArray (g contextName) = false →
  selectConfig contextName path (VArr (before ++ VFun g :: after)) = Ok (g contextName).
Proof.
  intros Hnone Hb Hg Harr. unfold selectConfig.
  rewrite (findIndex_none _ _ Hnone), (tryFactories_first _ _ _ _ _ Hb Hg).
  by rewrite Harr.
Qed.







(** C2: the fallback on the factories misses the case of a factory whose
    valid result is an array.  For the export [[() => []]] and the context
    name [reports] no entry matches, the only factory is called and its
    result, a non-null object without a [contextName], is taken by the loop,
    which stops; the test that follows the loop tells "nothing found" by
    [tmp] still being an array, and throws the not-found error instead of
    selecting the result.  The same result is selected where it comes from
    a factory that is the export itself, and an array is selected as well
    where it is an entry of the exported array and the name is
    [default]. *)
Theorem factory_returning_array_not_selected :
  noMatch "reports" [Sample.arrayFactory]
  ∧ isValidConfigFactoryResult "reports" (VArr []) = true
  ∧ selectConfig "reports" "/app/orm.js" (VArr [Sample.arrayFactory])
    = Throw (notFoundInArrayMessage "reports" "/app/orm.js")
  ∧ ¬ factoryFallbackAsSpecified "reports" "/app/orm.js" [Sample.arrayFactory]
  ∧ selectConfig "reports" "/app/orm.js" Sample.arrayFactory = Ok (VArr [])
  ∧ selectConfig "default" "/app/orm.js" (VArr [VArr []]) = Ok (VArr []).
Proof.
  split; [repeat constructor |]. split; [reflexivity |]. split; [reflexivity |].
  split; [| split; reflexivity].
  intros Hspec.
  specialize (Hspec ltac:(repeat constructor) [] (fun _ => VArr []) []
                eq_refl ltac:(constructor) eq_refl).
  discriminate Hspec.
Qed.

(** ** Exports without a context name *)

Lemma configFinder_no_contextName contextName props :
  props !! "contextName" = None →
  configFinder contextName (VObj props) = String.eqb contextName "default".
Proof. intros H. unfold configFinder. simpl. by rewrite H. Qed.

Lemma isValidConfigFactoryResult_no_contextName contextName props :
  props !! "contextName" = None →
  isValidConfigFactoryResult contextName (VObj props) = true.
Proof. intros H. unfold isValidConfigFactoryResult. simpl. by rewrite H. Qed.

(** C10: a config object without [contextName] that a factory returns is
    accepted whatever context name is requested, for a factory that is the
    export itself and for one that is tried as an entry of an exported
    array; the same object as the plain export is accepted for the context
    name ["default"] and for no other. *)
Theorem config_without_contextName (contextName path : string)
    (props : gmap string value) :
  props !! "contextName" = None →
  (∀ g, g contextName = VObj props →
        selectConfig contextName path (VFun g) = Ok (VObj props))
  ∧ (∀ before g after,
        g contextName = VObj props →
        noMatch contextName (before ++ VFun g :: after) →
        Forall (passedBy contextName) before →
        selectConfig contextName path (VArr (before ++ VFun g :: after))
        = Ok (VObj props))
  ∧ (selectConfig contextName path (VObj props) = Ok (VObj props)
     ↔ contextName = "default")
  ∧ (contextName ≠ "default" →
     selectConfig contextName path (VObj props)
     = Throw ("MikroORM config '" +:+ contextName
              +:+ "' was not what the default export from '" +:+ path
              +:+ "' provided.")).
Proof.
  intros Hno.
  pose proof (isValidConfigFactoryResult_no_contextName contextName props Hno) as Hvalid.
  pose proof (configFinder_no_contextName contextName props Hno) as Hfind.
  split; [| split; [| split]].
  - intros g Hg. unfold selectConfig. by rewrite Hg, Hvalid.
  - intros before g after Hg Hnone Hb.
    rewrite <- Hg. apply selectConfig_array_factory; [done | done | |]; by rewrite Hg.
  - unfold selectConfig. rewrite Hfind.
    destruct (String.eqb_spec contextName "default"); split; done.
  - intros Hne. unfold selectConfig. rewrite Hfind.
    by destruct (String.eqb_spec contextName "default").
Qed.

Lemma config_without_contextName_witness :
  selectConfig "reports" "/app/orm.js" (VFun (fun _ => VObj {[ "dbName" := VStr "r" ]}))
  = Ok (VObj {[ "dbName" := VStr "r" ]})
  ∧ selectConfig "reports" "/app/orm.js" (VObj {[ "dbName" := VStr "r" ]})
    = Throw "MikroORM config 'reports' was not what the default export from '/app/orm.js' provided.".
Proof.
  destruct (config_without_contextName "reports" "/app/orm.js" {[ "dbName" := VStr "r" ]})
    as (Hfun & _ & _ & Hplain); [reflexivity |].
  split.
  - by apply Hfun.
  - by apply Hplain.
Defined.

(** ** checkPackageVersion *)

Lemma checkVersions_agree w ormPackages :
  Forall (agrees w) ormPackages → checkVersions w (ORMVersion w) ormPackages = Ok tt.
Proof.
  induction 1 as [| pkg rest [Hv | Hv] _ IH]; [reflexivity | |]; simpl; rewrite Hv.
  - exact IH.
  - by rewrite String.eqb_refl.
Qed.

Lemma checkVersions_first_mismatch w before ormPackage version after :
  Forall (agrees w) before →
  getORMPackageVersion w ormPackage = Some version →
  version ≠ ORMVersion w →
  checkVersions w (ORMVersion w) (before ++ ormPackage :: after)
  = Throw (badVersionMessage w ormPackage version (ORMVersion w)).
Proof.
  intros Hb Hv Hne. induction Hb as [| pkg before [Hp | Hp] _ IH]; simpl.
  - rewrite Hv. by destruct (String.eqb_spec version (ORMVersion w)).
  - by rewrite Hp.
  - by rewrite Hp, String.eqb_refl.
Qed.

(** Some package disagrees: the loop throws, for the first that does. *)
Lemma checkVersions_some_mismatch w ormPackages :
  ¬ Forall (agrees w) ormPackages →
  ∃ ormPackage version,
    ormPackage ∈ ormPackages
    ∧ getORMPackageVersion w ormPackage = Some version
    ∧ version ≠ ORMVersion w
    ∧ checkVersions w (ORMVersion w) ormPackages
      = Throw (badVersionMessage w ormPackage version (ORMVersion w)).
Proof.
  induction ormPackages as [| pkg rest IH]; intros Hnot.
  - destruct Hnot. constructor.
  - simpl. destruct (getORMPackageVersion w pkg) as [version |] eqn:Hv.
    + destruct (String.eqb_spec version (ORMVersion w)) as [-> | Hne]; simpl.
      * destruct IH as (p & v & Hin & Hpv & Hvne & Hthrow).
        { intros Hall. apply Hnot. constructor; [by right | done]. }
        exists p, v. split; [by apply elem_of_cons; right | done].
      * exists pkg, version. split; [by apply elem_of_cons; left | done].
    + destruct IH as (p & v & Hin & Hpv & Hvne & Hthrow).
      { intros Hall. apply Hnot. constructor; [by left | done]. }
      exists p, v. split; [by apply elem_of_cons; right | done].
Qed.

Lemma checkPackageVersion_checked w :
  Js.truthy (env w !! "MIKRO_ORM_ALLOW_VERSION_MISMATCH") = false →
  checkPackageVersion w
  = let* checked := checkVersions w (ORMVersion w) (checkedPackages w) in
    Ok (ORMVersion w).
Proof. intros H. unfold checkPackageVersion. by rewrite H. Qed.

Lemma checkedPackages_elem_of w d :
  d ∈ checkedPackages w ↔
  (d ∈ default [] (pkgDependencies (packageConfig w))
   ∨ d ∈ default [] (pkgDevDependencies (packageConfig w)))
  ∧ Js.startsWith d "@mikro-orm/" = true
  ∧ d ≠ "@mikro-orm/core"
  ∧ Js.substringFrom 11 d ∉ exceptions.
Proof.
  unfold checkedPackages, getORMPackages.
  rewrite list_elem_of_filter, unique_elem_of, elem_of_app.
  unfold isOrmPackage. rewrite Is_true_true, !andb_true_iff, !negb_true_iff.
  rewrite includes_false.
  destruct (String.eqb_spec d "@mikro-orm/core"); split; intros H;
    destruct_and?; split_and?; done.
Qed.

(** C8: with the bypass variable set the check is skipped and the core
    version returned.  Otherwise the packages compared are the dependencies
    and devDependencies under [@mikro-orm/], without the core package and
    the exceptions; the first of them whose version is determined and is not
    the core version makes the check throw an error that names the package,
    its version and the core version; a package whose version cannot be
    determined is passed over; and when no package disagrees the core
    version is returned. *)
Theorem checkPackageVersion_guard (w : World) :
  (∀ d, d ∈ checkedPackages w ↔
        (d ∈ default [] (pkgDependencies (packageConfig w))
         ∨ d ∈ default [] (pkgDevDependencies (packageConfig w)))
        ∧ Js.startsWith d "@mikro-orm/" = true
        ∧ d ≠ "@mikro-orm/core"
        ∧ Js.substringFrom 11 d ∉ exceptions)
  ∧ (∀ flag, env w !! "MIKRO_ORM_ALLOW_VERSION_MISMATCH" = Some flag → flag ≠ "" →
             checkPackageVersion w = Ok (ORMVersion w))
  ∧ (Js.truthy (env w !! "MIKRO_ORM_ALLOW_VERSION_MISMATCH") = false →
     (∀ ormPackage version,
        ormPackage ∈ checkedPackages w →
        getORMPackageVersion w ormPackage = Some version →
        version ≠ ORMVersion w →
        ∃ offending installed,
          offending ∈ checkedPackages w
          ∧ getORMPackageVersion w offending = Some installed
          ∧ installed ≠ ORMVersion w
          ∧ checkPackageVersion w
            = Throw (badVersionMessage w offending installed (ORMVersion w)))
     ∧ (∀ before ormPackage version after,
          checkedPackages w = before ++ ormPackage :: after →
          Forall (agrees w) before →
          getORMPackageVersion w ormPackage = Some version →
          version ≠ ORMVersion w →
          checkPackageVersion w
          = Throw (badVersionMessage w ormPackage version (ORMVersion w)))
     ∧ (Forall (agrees w) (checkedPackages w) →
          checkPackageVersion w = Ok (ORMVersion w)))
  ∧ (∀ ormPackage version coreVersion,
       ∃ rest, badVersionMessage w ormPackage version coreVersion
               = "Bad " +:+ cyan w ormPackage +:+ " version " +:+ yellow w version
                 +:+ "." +:+ newline
                 +:+ "All official @mikro-orm/* packages need to have the exact same version as @mikro-orm/core ("
                 +:+ green w coreVersion +:+ ")." +:+ rest).
Proof.
  split; [apply checkedPackages_elem_of |]. split; [| split].
  - intros flag Hflag Hne. unfold checkPackageVersion. rewrite Hflag. simpl.
    by destruct (String.eqb_spec flag "").
  - intros Hoff. rewrite (checkPackageVersion_checked w Hoff). split; [| split].
    + intros pkg version Hin Hv Hne.
      destruct (checkVersions_some_mismatch w (checkedPackages w))
        as (p & v & Hp & Hpv & Hvne & Hthrow).
      { intros Hall. rewrite Forall_forall in Hall.
        destruct (Hall pkg Hin) as [Hnone | Hsame]; congruence. }
      exists p, v. by rewrite Hthrow.
    + intros before pkg version after -> Hb Hv Hne.
      by rewrite (checkVersions_first_mismatch _ _ _ _ _ Hb Hv Hne).
    + intros Hall. by rewrite (checkVersions_agree _ _ Hall).
  - intros. eexists. unfold badVersionMessage. reflexivity.
Qed.

Lemma checkPackageVersion_guard_witness :
  checkPackageVersion Sample.mixed
  = Throw (badVersionMessage Sample.mixed "@mikro-orm/mysql" "6.3.0" "6.4.0")
  ∧ checkPackageVersion Sample.mixedBypassed = Ok "6.4.0"
  ∧ checkPackageVersion Sample.bare = Ok "6.4.0".
Proof.
  split; [| split].
  - destruct (checkPackageVersion_guard Sample.mixed) as (_ & _ & Hchecked & _).
    destruct Hchecked as (_ & Hfirst & _); [reflexivity |].
    apply (Hfirst ["@mikro-orm/migrations"] "@mikro-orm/mysql" "6.3.0" ["@mikro-orm/cli"]);
      [reflexivity | repeat constructor; by left | reflexivity | discriminate].
  - destruct (checkPackageVersion_guard Sample.mixedBypassed) as (_ & Hbypass & _).
    apply (Hbypass "1"); [reflexivity | discriminate].
  - destruct (checkPackageVersion_guard Sample.bare) as (_ & _ & Hchecked & _).
    destruct Hchecked as (_ & _ & Hall); [reflexivity |].
    apply Hall. constructor.
Defined.

(** * Further properties of the loader *)

(** ** The decoder as a table *)

Lemma loadEnvironmentVars_unfold w :
  loadEnvironmentVars w
  = let* ret := readThrowing w (read w ∅ "MIKRO_ORM_BASE_DIR" "baseDir" VStr)
                  "MIKRO_ORM_TYPE" "driver" (driver w) in
    Ok (attachNamespaces w (readAll w topLevelVars ret)).
Proof. reflexivity. Qed.

Lemma loadDiscovery_readAll w : loadDiscovery w = readAll w discoveryVars ∅.
Proof. reflexivity. Qed.

Lemma loadMigrations_readAll w : loadMigrations w = readAll w migrationsVars ∅.
Proof. reflexivity. Qed.

Lemma loadSchemaGenerator_readAll w :
  loadSchemaGenerator w = readAll w schemaGeneratorVars ∅.
Proof. reflexivity. Qed.

Lemma loadSeeder_readAll w : loadSeeder w = readAll w seederVars ∅.
Proof. reflexivity. Qed.

Lemma read_lookup_eq w o e k m :
  read w o e k m !! k
  = match env w !! e with Some s => Some (m s) | None => o !! k end.
Proof. unfold read. destruct (env w !! e); [apply lookup_insert_eq | done]. Qed.

Lemma read_lookup_ne w o e k m k' :
  k ≠ k' → read w o e k m !! k' = o !! k'.
Proof. intros Hne. unfold read. destruct (env w !! e); [by apply lookup_insert_ne | done]. Qed.

Section ReadAll.

Context (w : World).

Lemma readAll_cons v table o :
  readAll w (v :: table) o
  = readAll w table (read w o (envKey v) (optionKey v) (mapperOf w (mapper v))).
Proof. reflexivity. Qed.

(** A key no call of the table writes keeps what it had. *)
Lemma readAll_lookup_other table o k :
  k ∉ optionKey <$> table → readAll w table o !! k = o !! k.
Proof.
  revert o. induction table as [| v table IH]; intros o Hk; [done |].
  rewrite fmap_cons, not_elem_of_cons in Hk. destruct Hk as [Hne Hk].
  rewrite readAll_cons, IH by done. by apply read_lookup_ne.
Qed.

(** With no key written twice, a key holds what its own call gave it. *)
Lemma readAll_lookup table o v :
  NoDup (optionKey <$> table) → v ∈ table →
  readAll w table o !! optionKey v
  = match env w !! envKey v with
    | Some s => Some (mapperOf w (mapper v) s)
    | None => o !! optionKey v
    end.
Proof.
  revert o. induction table as [| v0 table IH]; intros o Hnd Hin.
  - by apply elem_of_nil in Hin.
  - rewrite fmap_cons in Hnd. apply NoDup_cons in Hnd as [Hfresh Hnd].
    rewrite readAll_cons. apply elem_of_cons in Hin as [-> | Hin].
    + rewrite readAll_lookup_other by done. apply read_lookup_eq.
    + rewrite IH by done. destruct (env w !! envKey v); [done |].
      apply read_lookup_ne. intros Heq. apply Hfresh. rewrite Heq.
      by apply list_elem_of_fmap_2.
Qed.

Lemma readAll_unset table o :
  Forall (fun v => env w !! envKey v = None) table → readAll w table o = o.
Proof.
  intros Hall. revert o. induction Hall as [| v table Hv _ IH]; intros o; [done |].
  rewrite readAll_cons, IH. unfold read. by rewrite Hv.
Qed.

End ReadAll.

(** Two worlds with the same values for the variables of a table, and the
    same conversion to numbers, read the same. *)
Lemma readAll_agree w1 w2 table o :
  Forall (fun v => env w1 !! envKey v = env w2 !! envKey v) table →
  toNumber w1 = toNumber w2 →
  readAll w1 table o = readAll w2 table o.
Proof.
  intros Hall Hnum. revert o. induction Hall as [| v table Hv _ IH]; intros o; [done |].
  rewrite !readAll_cons, IH. f_equal. unfold read. rewrite Hv.
  assert (mapperOf w1 (mapper v) = mapperOf w2 (mapper v)) as ->; [| done].
  destruct (mapper v); simpl; unfold num; by rewrite ?Hnum.
Qed.

Lemma cleanup_lookup_ne o k k' : k ≠ k' → cleanup o k !! k' = o !! k'.
Proof.
  intros Hne. unfold cleanup.
  destruct (Utils.hasObjectKeys _); [done | by apply lookup_delete_ne].
Qed.

(** A sub-object stays when it has a key and goes when it has none. *)
Lemma cleanup_insert_lookup o k props :
  cleanup (<[k := VObj props]> o) k !! k
  = if decide (props = ∅) then None else Some (VObj props).
Proof.
  unfold cleanup. rewrite lookup_insert_eq. simpl.
  case_decide as Hp.
  - rewrite bool_decide_eq_true_2 by done. simpl. apply lookup_delete_eq.
  - rewrite bool_decide_eq_false_2 by done. simpl. apply lookup_insert_eq.
Qed.

Lemma cleanup_insert_lookup_ne o k props k' :
  k ≠ k' → cleanup (<[k := VObj props]> o) k !! k' = o !! k'.
Proof. intros Hne. by rewrite cleanup_lookup_ne, lookup_insert_ne. Qed.

Lemma attachNamespaces_lookup_other w ret k :
  k ∉ ["discovery"; "migrations"; "schemaGenerator"; "seeder"] →
  attachNamespaces w ret !! k = ret !! k.
Proof.
  intros Hk. rewrite !not_elem_of_cons in Hk. destruct Hk as (H1 & H2 & H3 & H4 & _).
  unfold attachNamespaces.
  by rewrite !cleanup_insert_lookup_ne by done.
Qed.

Lemma attachNamespaces_lookup w ret ns vars props :
  (ns, vars, props) ∈ namespaces w →
  attachNamespaces w ret !! ns
  = if decide (props = ∅) then None else Some (VObj props).
Proof.
  unfold namespaces, attachNamespaces. intros Hin.
  repeat (apply elem_of_cons in Hin as [[= -> -> ->] | Hin];
          [by rewrite ?cleanup_insert_lookup_ne by done; rewrite cleanup_insert_lookup |]).
  by apply elem_of_nil in Hin.
Qed.

Lemma namespaces_readAll w ns vars props :
  (ns, vars, props) ∈ namespaces w →
  props = readAll w vars ∅ ∧ NoDup (optionKey <$> vars).
Proof.
  unfold namespaces. intros Hin.
  repeat (apply elem_of_cons in Hin as [[= -> -> ->] | Hin];
          [split; [reflexivity | compute_done] |]).
  by apply elem_of_nil in Hin.
Qed.

Lemma readThrowing_lookup_ne w o e k m ret k' :
  readThrowing w o e k m = Ok ret → k ≠ k' → ret !! k' = o !! k'.
Proof.
  unfold readThrowing. destruct (env w !! e) as [s |]; [| by intros [= ->]].
  destruct (m s); simpl; [| done]. intros [= <-] Hne. by apply lookup_insert_ne.
Qed.

(** What the first two calls leave on [ret]. *)
Lemma loadEnvironmentVars_first w decoded :
  loadEnvironmentVars w = Ok decoded →
  ∃ ret,
    readThrowing w (read w ∅ "MIKRO_ORM_BASE_DIR" "baseDir" VStr)
      "MIKRO_ORM_TYPE" "driver" (driver w) = Ok ret
    ∧ decoded = attachNamespaces w (readAll w topLevelVars ret)
    ∧ (∀ k, k ≠ "driver" → k ≠ "baseDir" → ret !! k = None)
    ∧ ret !! "baseDir" = VStr <$> env w !! "MIKRO_ORM_BASE_DIR".
Proof.
  rewrite loadEnvironmentVars_unfold.
  destruct (readThrowing _ _ _ _ _) as [ret | msg] eqn:Hret; [| done].
  simpl. intros [= <-]. exists ret. split; [done |]. split; [done |]. split.
  - intros k Hd Hb. rewrite (readThrowing_lookup_ne _ _ _ _ _ _ _ Hret) by done.
    by rewrite read_lookup_ne.
  - rewrite (readThrowing_lookup_ne _ _ _ _ _ _ _ Hret) by done.
    rewrite read_lookup_eq. by destruct (env w !! _).
Qed.

Lemma decoded_baseDir w decoded :
  loadEnvironmentVars w = Ok decoded →
  decoded !! "baseDir" = VStr <$> env w !! "MIKRO_ORM_BASE_DIR".
Proof.
  intros Hok.
  destruct (loadEnvironmentVars_first w decoded Hok) as (ret & _ & -> & _ & Hbase).
  rewrite attachNamespaces_lookup_other by compute_done.
  by rewrite readAll_lookup_other by compute_done.
Qed.

Lemma decoded_top_level_var w decoded v :
  loadEnvironmentVars w = Ok decoded → v ∈ topLevelVars →
  decoded !! optionKey v = mapperOf w (mapper v) <$> env w !! envKey v.
Proof.
  intros Hok Hv.
  destruct (loadEnvironmentVars_first w decoded Hok) as (ret & _ & -> & Hother & _).
  assert (optionKey v ∈ optionKey <$> topLevelVars) as Hkey
    by (by apply list_elem_of_fmap_2).
  rewrite attachNamespaces_lookup_other.
  - rewrite readAll_lookup by (done || compute_done).
    destruct (env w !! envKey v); [done |]. simpl. apply Hother.
    + intros Heq. rewrite Heq in Hkey. revert Hkey. compute_done.
    + intros Heq. rewrite Heq in Hkey. revert Hkey. compute_done.
  - intros Hns. revert Hkey.
    repeat (apply elem_of_cons in Hns as [-> | Hns]; [compute_done |]).
    by apply elem_of_nil in Hns.
Qed.

Lemma decoded_no_other_key w decoded k :
  loadEnvironmentVars w = Ok decoded → k ∉ decodedKeys → decoded !! k = None.
Proof.
  intros Hok Hk.
  destruct (loadEnvironmentVars_first w decoded Hok) as (ret & _ & -> & Hother & _).
  unfold decodedKeys in Hk.
  rewrite !not_elem_of_cons, not_elem_of_app in Hk.
  destruct Hk as (Hb & Hd & Htop & Hns).
  rewrite attachNamespaces_lookup_other by done.
  rewrite readAll_lookup_other by done. by apply Hother.
Qed.

(** X1: every option at the top level of the decoded environment holds the
    mapped value of its own variable and is absent when the variable is
    not set; no variable's value ends under another key, and the decoder
    sets no key outside its list. *)
Theorem loadEnvironmentVars_table (w : World) (decoded : gmap string value) :
  loadEnvironmentVars w = Ok decoded →
  decoded !! "baseDir" = VStr <$> env w !! "MIKRO_ORM_BASE_DIR"
  ∧ (∀ v, v ∈ topLevelVars →
          decoded !! optionKey v = mapperOf w (mapper v) <$> env w !! envKey v)
  ∧ (∀ k, k ∉ decodedKeys → decoded !! k = None).
Proof.
  intros Hok. split; [| split].
  - by apply decoded_baseDir.
  - intros v Hv. by apply decoded_top_level_var.
  - intros k Hk. by apply (decoded_no_other_key w).
Qed.

Lemma loadEnvironmentVars_table_witness :
  loadEnvironmentVars Sample.shop = Ok shopDecoded
  ∧ shopDecoded !! "dbName" = Some (VStr "env")
  ∧ shopDecoded !! "host" = None.
Proof.
  assert (loadEnvironmentVars Sample.shop = Ok shopDecoded) as Hok
    by (vm_compute; reflexivity).
  split; [exact Hok |].
  destruct (loadEnvironmentVars_table Sample.shop shopDecoded Hok) as (_ & Htop & _).
  split.
  - apply (Htop (mkEnvVar "MIKRO_ORM_DB_NAME" "dbName" AsString)). compute_done.
  - apply (Htop (mkEnvVar "MIKRO_ORM_HOST" "host" AsString)). compute_done.
Defined.

Lemma namespace_keys w ns vars props v :
  (ns, vars, props) ∈ namespaces w → v ∈ vars →
  props !! optionKey v = mapperOf w (mapper v) <$> env w !! envKey v.
Proof.
  intros Hns Hv. destruct (namespaces_readAll w ns vars props Hns) as [-> Hnd].
  rewrite readAll_lookup by done. by destruct (env w !! envKey v).
Qed.

Lemma namespace_empty_iff w ns vars props :
  (ns, vars, props) ∈ namespaces w →
  props = ∅ ↔ Forall (fun v => env w !! envKey v = None) vars.
Proof.
  intros Hns. split.
  - intros Hempty. apply Forall_forall. intros v Hv.
    pose proof (namespace_keys w ns vars props v Hns Hv) as Hkey.
    rewrite Hempty, lookup_empty in Hkey. by destruct (env w !! envKey v).
  - intros Hall. destruct (namespaces_readAll w ns vars props Hns) as [-> _].
    by apply readAll_unset.
Qed.

Lemma decoded_namespace_lookup w decoded ns vars props :
  loadEnvironmentVars w = Ok decoded →
  (ns, vars, props) ∈ namespaces w →
  decoded !! ns = if decide (props = ∅) then None else Some (VObj props).
Proof.
  intros Hok Hns.
  destruct (loadEnvironmentVars_first w decoded Hok) as (ret & _ & -> & _ & _).
  apply (attachNamespaces_lookup _ _ _ _ _ Hns).
Qed.

(** X2: each of the four sub-objects ([discovery], [migrations],
    [schemaGenerator], [seeder]) is left out of the decoded environment
    exactly when none of its variables is set; when it is there it is never
    an empty object, and each of its keys holds the mapped value of its own
    variable. *)
Theorem loadEnvironmentVars_namespaces (w : World) (decoded : gmap string value)
    (ns : string) (vars : list EnvVar) (props : gmap string value) :
  loadEnvironmentVars w = Ok decoded →
  (ns, vars, props) ∈ namespaces w →
  (decoded !! ns = None ↔ Forall (fun v => env w !! envKey v = None) vars)
  ∧ (∀ sub, decoded !! ns = Some sub → sub = VObj props ∧ props ≠ ∅)
  ∧ (∀ v, v ∈ vars →
          props !! optionKey v = mapperOf w (mapper v) <$> env w !! envKey v).
Proof.
  intros Hok Hns.
  rewrite (decoded_namespace_lookup _ _ _ _ _ Hok Hns).
  pose proof (namespace_empty_iff w ns vars props Hns) as Hempty.
  split; [| split].
  - rewrite <- Hempty. case_decide; split; done.
  - intros sub. case_decide; [done |]. by intros [= <-].
  - intros v Hv. by apply (namespace_keys w ns vars).
Qed.

Lemma loadEnvironmentVars_namespaces_witness :
  loadEnvironmentVars Sample.shop = Ok shopDecoded
  ∧ shopDecoded !! "seeder" = None
  ∧ (∀ sub, shopDecoded !! "migrations" = Some sub →
            sub = VObj (loadMigrations Sample.shop)).
Proof.
  assert (loadEnvironmentVars Sample.shop = Ok shopDecoded) as Hok
    by (vm_compute; reflexivity).
  split; [exact Hok |]. split.
  - apply (loadEnvironmentVars_namespaces Sample.shop shopDecoded "seeder" seederVars
             (loadSeeder Sample.shop) Hok); [| repeat constructor].
    do 3 (apply elem_of_cons; right). apply elem_of_cons. by left.
  - intros sub Hsub.
    apply (loadEnvironmentVars_namespaces Sample.shop shopDecoded "migrations"
             migrationsVars (loadMigrations Sample.shop) Hok); [| exact Hsub].
    apply elem_of_cons; right. apply elem_of_cons. by left.
Defined.

(** ** Variables the decoder does not know *)

Lemma knownEnvVars_table table :
  table ∈ [topLevelVars; discoveryVars; migrationsVars; schemaGeneratorVars; seederVars] →
  ∀ v, v ∈ table → envKey v ∈ knownEnvVars.
Proof.
  intros Ht v Hv. unfold knownEnvVars.
  do 2 (apply elem_of_cons; right). apply list_elem_of_fmap_2.
  rewrite !elem_of_app.
  repeat (apply elem_of_cons in Ht as [-> | Ht]; [tauto |]).
  by apply elem_of_nil in Ht.
Qed.

Lemma bindResult_ext {A B} (r : Result A) (k1 k2 : A -> Result B) :
  (∀ a, k1 a = k2 a) → bindResult r k1 = bindResult r k2.
Proof. intros H. destruct r; [apply H | done]. Qed.

Lemma readAll_agree_known w1 w2 table o :
  table ∈ [topLevelVars; discoveryVars; migrationsVars; schemaGeneratorVars; seederVars] →
  (∀ x, x ∈ knownEnvVars → env w1 !! x = env w2 !! x) →
  toNumber w1 = toNumber w2 →
  readAll w1 table o = readAll w2 table o.
Proof.
  intros Ht Henv Hnum. apply readAll_agree; [| done].
  apply Forall_forall. intros v Hv. apply Henv. by eapply knownEnvVars_table.
Qed.

(** X3: the decoded environment depends on the environment only through the
    variables of the decoder's list: two worlds that agree on them (and on
    the conversion to numbers and the loading of driver modules) decode to
    the same result, error or not.  Setting, changing or removing any other
    variable changes nothing. *)
Theorem loadEnvironmentVars_ignores_unknown (w1 w2 : World) :
  (∀ x, x ∈ knownEnvVars → env w1 !! x = env w2 !! x) →
  toNumber w1 = toNumber w2 →
  requireFrom w1 = requireFrom w2 →
  loadEnvironmentVars w1 = loadEnvironmentVars w2.
Proof.
  intros Henv Hnum Hreq. rewrite !loadEnvironmentVars_unfold.
  assert (readThrowing w1 (read w1 ∅ "MIKRO_ORM_BASE_DIR" "baseDir" VStr)
            "MIKRO_ORM_TYPE" "driver" (driver w1)
          = readThrowing w2 (read w2 ∅ "MIKRO_ORM_BASE_DIR" "baseDir" VStr)
              "MIKRO_ORM_TYPE" "driver" (driver w2)) as ->.
  { unfold readThrowing, read, driver.
    rewrite <- !(Henv "MIKRO_ORM_BASE_DIR"), <- !(Henv "MIKRO_ORM_TYPE") by compute_done.
    by rewrite Hreq. }
  apply bindResult_ext. intros ret. f_equal. unfold attachNamespaces.
  rewrite !loadDiscovery_readAll, !loadMigrations_readAll,
    !loadSchemaGenerator_readAll, !loadSeeder_readAll.
  by rewrite !(readAll_agree_known w1 w2) by (done || compute_done).
Qed.

Lemma loadEnvironmentVars_ignores_unknown_witness :
  loadEnvironmentVars
    (Sample.withEnv (<[ "MIKRO_ORM_CLI_VERBOSE" := "1" ]> (env Sample.shop)) Sample.shop)
  = loadEnvironmentVars Sample.shop.
Proof.
  apply loadEnvironmentVars_ignores_unknown; [| reflexivity | reflexivity].
  intros x Hx. simpl. apply lookup_insert_ne. intros <-. revert Hx. compute_done.
Defined.

(** ** The driver and the empty environment *)

Lemma readThrowing_lookup_eq w o e k m ret s :
  readThrowing w o e k m = Ok ret → env w !! e = Some s →
  ∃ v, m s = Ok v ∧ ret !! k = Some v.
Proof.
  unfold readThrowing. intros Hret Hs. rewrite Hs in Hret.
  destruct (m s) as [v | msg]; simpl in Hret; [| done].
  injection Hret as <-. exists v. split; [done | apply lookup_insert_eq].
Qed.

Lemma decoded_driver w decoded :
  loadEnvironmentVars w = Ok decoded →
  match env w !! "MIKRO_ORM_TYPE" with
  | None => decoded !! "driver" = None
  | Some t => ∃ v, driver w t = Ok v ∧ decoded !! "driver" = Some v
  end.
Proof.
  intros Hok.
  destruct (loadEnvironmentVars_first w decoded Hok) as (ret & Hret & -> & _ & _).
  rewrite attachNamespaces_lookup_other by compute_done.
  rewrite readAll_lookup_other by compute_done.
  destruct (env w !! "MIKRO_ORM_TYPE") as [t |] eqn:Ht.
  - by apply (readThrowing_lookup_eq _ _ _ _ _ _ _ Hret).
  - unfold readThrowing in Hret. rewrite Ht in Hret. injection Hret as <-.
    by rewrite read_lookup_ne.
Qed.









Lemma decoded_empty_iff w decoded :
  loadEnvironmentVars w = Ok decoded →
  (decoded = ∅ ↔ ∀ x, x ∈ knownEnvVars → env w !! x = None).
Proof.
  intros Hok. split.
  - intros -> x Hx. unfold knownEnvVars in Hx.
    apply elem_of_cons in Hx as [-> | Hx];
      [| apply elem_of_cons in Hx as [-> | Hx]].
    + pose proof (decoded_baseDir w ∅ Hok) as Hbase.
      rewrite lookup_empty in Hbase. by destruct (env w !! _).
    + pose proof (decoded_driver w ∅ Hok) as Hd.
      destruct (env w !! "MIKRO_ORM_TYPE"); [| done].
      destruct Hd as (v & _ & Hv). by rewrite lookup_empty in Hv.
    + apply list_elem_of_fmap in Hx as (v & -> & Hv).
      rewrite !elem_of_app in Hv. destruct Hv as [Hv | Hv].
      * pose proof (decoded_top_level_var w ∅ v Hok Hv) as Htop.
        rewrite lookup_empty in Htop. by destruct (env w !! envKey v).
      * assert (∃ ns vars props, (ns, vars, props) ∈ namespaces w ∧ v ∈ vars)
          as (ns & vars & props & Hns & Hin).
        { unfold namespaces. destruct Hv as [Hv | [Hv | [Hv | Hv]]].
          - do 3 eexists. split; [apply elem_of_cons; by left | done].
          - do 3 eexists. split; [do 1 (apply elem_of_cons; right);
                                  apply elem_of_cons; by left | done].
          - do 3 eexists. split; [do 2 (apply elem_of_cons; right);
                                  apply elem_of_cons; by left | done].
          - do 3 eexists. split; [do 3 (apply elem_of_cons; right);
                                  apply elem_of_cons; by left | done]. }
        pose proof (decoded_namespace_lookup w ∅ ns vars props Hok Hns) as Hlook.
        rewrite lookup_empty in Hlook.
        destruct (decide (props = ∅)) as [Hempty |]; [| done].
        apply (namespace_empty_iff w ns vars props Hns) in Hempty.
        rewrite Forall_forall in Hempty. by apply Hempty.
  - intros Hall.
    destruct (loadEnvironmentVars_first w decoded Hok) as (ret & _ & -> & Hother & Hbase).
    assert (∀ table,
              table ∈ [topLevelVars; discoveryVars; migrationsVars;
                       schemaGeneratorVars; seederVars] →
              Forall (fun v => env w !! envKey v = None) table) as Hunset.
    { intros table Ht. apply Forall_forall. intros v Hv.
      apply Hall. by eapply knownEnvVars_table. }
    apply map_eq. intros k. rewrite lookup_empty.
    destruct (decide (k ∈ ["discovery"; "migrations"; "schemaGenerator"; "seeder"]))
      as [Hk | Hk].
    + assert (∃ vars props, (k, vars, props) ∈ namespaces w
                            ∧ vars ∈ [topLevelVars; discoveryVars; migrationsVars;
                                      schemaGeneratorVars; seederVars])
        as (vars & props & Hns & Hvars).
      { unfold namespaces.
        repeat (apply elem_of_cons in Hk as [-> | Hk];
                [do 2 eexists; split;
                 [ first [ apply elem_of_cons; by left
                         | apply elem_of_cons; right; apply elem_of_cons; by left
                         | do 2 (apply elem_of_cons; right); apply elem_of_cons; by left
                         | do 3 (apply elem_of_cons; right); apply elem_of_cons; by left ]
                 | compute_done ] |]).
        by apply elem_of_nil in Hk. }
      rewrite (attachNamespaces_lookup _ _ _ _ _ Hns).
      destruct (namespaces_readAll w k vars props Hns) as [-> _].
      rewrite readAll_unset by auto. by rewrite decide_True.
    + rewrite attachNamespaces_lookup_other by done.
      rewrite readAll_unset by (apply Hunset; compute_done).
      destruct (decide (k = "baseDir")) as [-> | Hb].
      * rewrite Hbase, Hall; [done | compute_done].
      * destruct (decide (k = "driver")) as [-> | Hd]; [| by apply Hother].
        destruct (ret !! "driver") eqn:Hdrv; [| done].
        pose proof (decoded_driver w _ Hok) as Hdec.
        rewrite (Hall "MIKRO_ORM_TYPE") in Hdec by compute_done.
        rewrite attachNamespaces_lookup_other in Hdec by compute_done.
        rewrite readAll_lookup_other in Hdec by compute_done. congruence.
Qed.

(** X5: when no candidate file exists and the decoding succeeds, the
    resolution fails with the not-found error exactly when none of the
    variables of the decoder's list is set; one of them being set, to
    whatever value, the empty string included, is enough for it to return a
    configuration without a file. *)
Theorem getConfiguration_not_found_iff (w : World) (contextName : string)
    (paths : list string) (options decoded : gmap string value) :
  loadEnvironmentVars w = Ok decoded →
  noneExists w paths →
  (getConfiguration w contextName paths options = Throw (notFoundMessage paths)
   ↔ ∀ x, x ∈ knownEnvVars → env w !! x = None)
  ∧ (∀ x, x ∈ knownEnvVars → is_Some (env w !! x) →
          ∃ config, getConfiguration w contextName paths options = Ok config).
Proof.
  intros Hok Hnone.
  pose proof (decoded_empty_iff w decoded Hok) as Hempty.
  assert (getConfiguration w contextName paths options
          = if bool_decide (decoded = ∅) then Throw (notFoundMessage paths)
            else Ok (newConfiguration
                       (Utils.mergeConfig (VObj {[ "contextName" := VStr contextName ]})
                          [VObj options; VObj decoded]))) as ->.
  { unfold getConfiguration. rewrite Hok. cbn [bindResult].
    rewrite (getConfigFile_none _ _ _ _ Hnone). cbn.
    by destruct (bool_decide (decoded = ∅)). }
  split.
  - rewrite <- Hempty. case_bool_decide; split; done.
  - intros x Hx [s Hs]. rewrite bool_decide_eq_false_2; [eauto |].
    rewrite Hempty. intros Hall. rewrite (Hall x Hx) in Hs. done.
Qed.

Lemma getConfiguration_not_found_iff_witness :
  ∃ config,
    getConfiguration (Sample.withEnv {[ "MIKRO_ORM_DEBUG" := "" ]} Sample.bare)
      "default" ["./mikro-orm.config.js"] ∅ = Ok config.
Proof.
  set (w := Sample.withEnv _ _).
  destruct (getConfiguration_not_found_iff w "default" ["./mikro-orm.config.js"] ∅
              {[ "debug" := VBool false ]}) as (_ & Hset);
    [vm_compute; reflexivity | repeat constructor |].
  apply (Hset "MIKRO_ORM_DEBUG"); [compute_done | by eexists].
Defined.

(** ** registerDotenv *)

Lemma propagate_lookup key val processEnv k :
  propagate key val processEnv !! k
  = match processEnv !! k with
    | Some v => Some v
    | None => if decide (key = k)
              then (if Js.startsWith key "MIKRO_ORM_" then Some val else None)
              else None
    end.
Proof.
  unfold propagate. destruct (Js.startsWith key "MIKRO_ORM_").
  - destruct (processEnv !! key) eqn:Hkey.
    + destruct (processEnv !! k) eqn:Hk; [done |]. case_decide; congruence.
    + rewrite lookup_insert. case_decide as Hd.
      * subst k. by rewrite Hkey.
      * by destruct (processEnv !! k).
  - destruct (processEnv !! k); [done | by case_decide].
Qed.

Lemma map_fold_propagate_lookup processEnv fileEnv k :
  map_fold propagate processEnv fileEnv !! k = afterDotenv processEnv fileEnv k.
Proof.
  unfold afterDotenv.
  apply (map_fold_weak_ind
           (fun r m => r !! k = match processEnv !! k with
                               | Some v => Some v
                               | None => if Js.startsWith k "MIKRO_ORM_"
                                         then m !! k else None
                               end) propagate processEnv).
  - rewrite lookup_empty.
    by destruct (processEnv !! k), (Js.startsWith k "MIKRO_ORM_").
  - intros i x m r Hi IH. rewrite propagate_lookup, IH, lookup_insert.
    destruct (processEnv !! k); [done |].
    case_decide as Hd.
    + subst i. rewrite Hi. by destruct (Js.startsWith k "MIKRO_ORM_").
    + by destruct (Js.startsWith k "MIKRO_ORM_"), (m !! k).
Qed.

Lemma registerDotenv_lookup w dotenvConfig baseDir k :
  registerDotenv w dotenvConfig baseDir !! k
  = afterDotenv (env w) (dotenvConfig (dotenvPath w baseDir)) k.
Proof. unfold registerDotenv. apply map_fold_propagate_lookup. Qed.

(** X6: [registerDotenv] never changes or removes a variable that is in
    [process.env] already; a variable that is not there is taken from the
    [.env] file when its name starts with [MIKRO_ORM_], and is not added
    otherwise, whatever the file says. *)
Theorem registerDotenv_respects_process_env (w : World)
    (dotenvConfig : string -> gmap string string) (baseDir : option string) :
  let fileEnv := dotenvConfig (dotenvPath w baseDir) in
  let after := registerDotenv w dotenvConfig baseDir in
  env w ⊆ after
  ∧ (∀ k v, env w !! k = Some v → after !! k = Some v)
  ∧ (∀ k, env w !! k = None → Js.startsWith k "MIKRO_ORM_" = true →
          after !! k = fileEnv !! k)
  ∧ (∀ k, env w !! k = None → Js.startsWith k "MIKRO_ORM_" = false →
          after !! k = None).
Proof.
  cbv zeta. split; [| split; [| split]].
  - apply map_subseteq_spec. intros k v Hk.
    rewrite registerDotenv_lookup. unfold afterDotenv. by rewrite Hk.
  - intros k v Hk. rewrite registerDotenv_lookup. unfold afterDotenv. by rewrite Hk.
  - intros k Hk Hp. rewrite registerDotenv_lookup. unfold afterDotenv. by rewrite Hk, Hp.
  - intros k Hk Hp. rewrite registerDotenv_lookup. unfold afterDotenv. by rewrite Hk, Hp.
Qed.

Lemma registerDotenv_respects_process_env_witness :
  registerDotenv Sample.shop (fun _ => shopDotenv) None !! "MIKRO_ORM_DB_NAME" = Some "env"
  ∧ registerDotenv Sample.shop (fun _ => shopDotenv) None !! "MIKRO_ORM_HOST"
    = Some "db.internal"
  ∧ registerDotenv Sample.shop (fun _ => shopDotenv) None !! "NODE_ENV" = None.
Proof.
  destruct (registerDotenv_respects_process_env Sample.shop (fun _ => shopDotenv) None)
    as (_ & Hkeep & Hfill & Hskip).
  split; [| split].
  - by apply Hkeep.
  - by rewrite Hfill.
  - by apply Hskip.
Defined.

(** X7: registering the same [.env] file a second time changes nothing. *)
Theorem registerDotenv_idempotent (w : World)
    (dotenvConfig : string -> gmap string string) (baseDir baseDir' : option string) :
  let after := registerDotenv w dotenvConfig baseDir in
  dotenvConfig (dotenvPath (Sample.withEnv after w) baseDir')
  = dotenvConfig (dotenvPath w baseDir) →
  registerDotenv (Sample.withEnv after w) dotenvConfig baseDir' = after.
Proof.
  cbv zeta. intros Hsame. apply map_eq. intros k.
  rewrite registerDotenv_lookup, Hsame. simpl. unfold afterDotenv.
  rewrite !registerDotenv_lookup. unfold afterDotenv.
  destruct (env w !! k); [done |].
  destruct (Js.startsWith k "MIKRO_ORM_"); [| done].
  by destruct (dotenvConfig _ !! k).
Qed.

Lemma registerDotenv_idempotent_witness :
  registerDotenv
    (Sample.withEnv (registerDotenv Sample.shop (fun _ => shopDotenv) None) Sample.shop)
    (fun _ => shopDotenv) None
  = registerDotenv Sample.shop (fun _ => shopDotenv) None.
Proof.
  apply (registerDotenv_idempotent Sample.shop (fun _ => shopDotenv) None None).
  reflexivity.
Defined.

Lemma knownEnvVars_prefixed x :
  x ∈ knownEnvVars → Js.startsWith x "MIKRO_ORM_" = true.
Proof.
  intros Hx.
  assert (Forall (fun y => Js.startsWith y "MIKRO_ORM_" = true) knownEnvVars) as Hall
    by compute_done.
  rewrite Forall_forall in Hall. by apply Hall.
Qed.

(** X8: decoding after [registerDotenv]: an option at the top level comes
    from the variable in [process.env] when it was set there, whatever the
    [.env] file has for it, and from the [.env] file otherwise. *)
Theorem loadEnvironmentVars_after_dotenv (w : World)
    (dotenvConfig : string -> gmap string string) (baseDir : option string)
    (decoded : gmap string value) :
  let fileEnv := dotenvConfig (dotenvPath w baseDir) in
  let w' := Sample.withEnv (registerDotenv w dotenvConfig baseDir) w in
  loadEnvironmentVars w' = Ok decoded →
  ∀ v, v ∈ topLevelVars →
       decoded !! optionKey v
       = mapperOf w (mapper v)
           <$> (match env w !! envKey v with
                | Some s => Some s
                | None => fileEnv !! envKey v
                end).
Proof.
  cbv zeta. intros Hok v Hv.
  rewrite (decoded_top_level_var _ decoded v Hok Hv). simpl. rewrite registerDotenv_lookup. unfold afterDotenv.
  rewrite knownEnvVars_prefixed
    by (apply (knownEnvVars_table topLevelVars); [compute_done | done]).
  by destruct (mapper v).
Qed.

Lemma loadEnvironmentVars_after_dotenv_witness :
  loadEnvironmentVars
    (Sample.withEnv (registerDotenv Sample.shop (fun _ => shopDotenv) None) Sample.shop)
  = Ok shopDotenvDecoded
  ∧ shopDotenvDecoded !! "dbName" = Some (VStr "env")
  ∧ shopDotenvDecoded !! "host" = Some (VStr "db.internal").
Proof.
  assert (loadEnvironmentVars
            (Sample.withEnv (registerDotenv Sample.shop (fun _ => shopDotenv) None)
               Sample.shop)
          = Ok shopDotenvDecoded) as Hok by (vm_compute; reflexivity).
  split; [exact Hok |].
  pose proof (loadEnvironmentVars_after_dotenv Sample.shop (fun _ => shopDotenv) None
                shopDotenvDecoded Hok) as Htop.
  split.
  - apply (Htop (mkEnvVar "MIKRO_ORM_DB_NAME" "dbName" AsString)). compute_done.
  - apply (Htop (mkEnvVar "MIKRO_ORM_HOST" "host" AsString)). compute_done.
Defined.

(** ** getSettings *)

(** X9: without any of the [MIKRO_ORM_CLI_*] variables of the settings, and
    without an override that ends in [.ts], [getSettings] is the manifest's
    [mikro-orm] section as it is.  [tsConfigPath], [verbose], [alwaysAllowTs]
    and [loader] are decided by their variable when it is set, whatever the
    manifest says, the two booleans being [true] for the five lower-case
    truthy spellings and [false] for anything else.  [useTsNode] is [true]
    whenever the override ends in [.ts], whatever its variable and the
    manifest say; otherwise it is decided by its variable when that is set,
    and by the manifest when it is not.  [configPaths] and [preferTs] always
    come from the manifest. *)
Theorem getSettings_env_over_manifest (w : World) :
  ((∀ x, x ∈ settingsEnvVars → env w !! x = None) →
   (∀ p, env w !! "MIKRO_ORM_CLI_CONFIG" = Some p → Js.endsWith p ".ts" = false) →
   getSettings w = pkgSettings (packageConfig w))
  ∧ (∀ v, env w !! "MIKRO_ORM_CLI_TS_CONFIG_PATH" = Some v →
          tsConfigPath (getSettings w) = Some v)
  ∧ (∀ v, env w !! "MIKRO_ORM_CLI_VERBOSE" = Some v →
          verbose (getSettings w) = Some (bool_decide (v ∈ truthyStrings)))
  ∧ (∀ v, env w !! "MIKRO_ORM_CLI_ALWAYS_ALLOW_TS" = Some v →
          alwaysAllowTs (getSettings w) = Some (bool_decide (v ∈ truthyStrings)))
  ∧ (∀ v, env w !! "MIKRO_ORM_CLI_LOADER" = Some v →
          loader (getSettings w) = Some (loaderOptionFromEnv v))
  ∧ (∀ p, env w !! "MIKRO_ORM_CLI_CONFIG" = Some p → Js.endsWith p ".ts" = true →
          useTsNode (getSettings w) = Some true)
  ∧ ((∀ p, env w !! "MIKRO_ORM_CLI_CONFIG" = Some p → Js.endsWith p ".ts" = false) →
     useTsNode (getSettings w)
     = match env w !! "MIKRO_ORM_CLI_USE_TS_NODE" with
       | Some v => Some (bool_decide (v ∈ truthyStrings))
       | None => useTsNode (pkgSettings (packageConfig w))
       end)
  ∧ configPaths (getSettings w) = configPaths (pkgSettings (packageConfig w))
  ∧ preferTs (getSettings w) = preferTs (pkgSettings (packageConfig w)).
Proof.
  unfold getSettings, envOr. simpl.
  split; [| split; [| split; [| split; [| split; [| split; [| split; [| split]]]]]]].
  - intros Hnone Hts.
    rewrite !(Hnone "MIKRO_ORM_CLI_TS_CONFIG_PATH"), !(Hnone "MIKRO_ORM_CLI_VERBOSE"),
      !(Hnone "MIKRO_ORM_CLI_USE_TS_NODE"), !(Hnone "MIKRO_ORM_CLI_ALWAYS_ALLOW_TS"),
      !(Hnone "MIKRO_ORM_CLI_LOADER") by compute_done.
    destruct (pkgSettings (packageConfig w)) as [v t c l a u p]. simpl. f_equal.
    destruct (env w !! "MIKRO_ORM_CLI_CONFIG") as [path |] eqn:Hp; [| done].
    by rewrite (Hts path eq_refl).
  - by intros v ->.
  - by intros v ->.
  - by intros v ->.
  - by intros v ->.
  - by intros p -> ->.
  - intros Hts. destruct (env w !! "MIKRO_ORM_CLI_CONFIG") as [path |]; [| done].
    by rewrite (Hts path eq_refl).
  - done.
  - done.
Qed.

Lemma getSettings_env_over_manifest_witness :
  getSettings Sample.mixed = emptySettings
  ∧ verbose (getSettings (Sample.withEnv {[ "MIKRO_ORM_CLI_VERBOSE" := "on" ]} Sample.bare))
    = Some false
  ∧ useTsNode (getSettings
                 (Sample.withEnv (list_to_map [("MIKRO_ORM_CLI_CONFIG", "./orm.config.ts");
                                               ("MIKRO_ORM_CLI_USE_TS_NODE", "false")])
                    Sample.bare))
    = Some true
  ∧ useTsNode (getSettings
                 (Sample.withEnv (list_to_map [("MIKRO_ORM_CLI_CONFIG", "./orm.config.js");
                                               ("MIKRO_ORM_CLI_USE_TS_NODE", "false")])
                    Sample.bare))
    = Some false.
Proof.
  split; [| split; [| split]].
  - apply (proj1 (getSettings_env_over_manifest Sample.mixed)).
    + intros x Hx. reflexivity.
    + intros p Hp. discriminate Hp.
  - set (w := Sample.withEnv _ _).
    destruct (getSettings_env_over_manifest w) as (_ & _ & Hverbose & _).
    by rewrite (Hverbose "on").
  - set (w := Sample.withEnv _ _).
    destruct (getSettings_env_over_manifest w) as (_ & _ & _ & _ & _ & Hts & _).
    by apply (Hts "./orm.config.ts").
  - set (w := Sample.withEnv _ _).
    destruct (getSettings_env_over_manifest w) as (_ & _ & _ & _ & _ & _ & Hplain & _).
    rewrite Hplain; [reflexivity |].
    intros p [= <-]. reflexivity.
Defined.

(** ** getPackageConfig *)

Lemma getPackageConfig_here fuel w fs basePath :
  pathExistsSync w (basePath +:+ "/package.json") = true →
  getPackageConfig (S fuel) w fs basePath
  = Some (default emptyPackageConfig (readJSONSync fs (basePath +:+ "/package.json"))).
Proof.
  intros He. simpl. rewrite He.
  by destruct (readJSONSync fs (basePath +:+ "/package.json")).
Qed.

Lemma passes_S w fs n basePath :
  passes w fs (S n) basePath →
  pathExistsSync w (basePath +:+ "/package.json") = false
  ∧ realpathSync fs (basePath +:+ "/..") ≠ basePath
  ∧ passes w fs n (realpathSync fs (basePath +:+ "/..")).
Proof.
  intros Hp. destruct (Hp 0) as [H0 H1]; [lia |]. simpl in H0, H1.
  split; [done |]. split; [done |].
  intros i Hi. destruct (Hp (S i)) as [Ha Hb]; [lia |]. by split.
Qed.

Lemma getPackageConfig_step fuel w fs basePath :
  pathExistsSync w (basePath +:+ "/package.json") = false →
  realpathSync fs (basePath +:+ "/..") ≠ basePath →
  getPackageConfig (S fuel) w fs basePath
  = getPackageConfig fuel w fs (realpathSync fs (basePath +:+ "/..")).
Proof.
  intros He Hne. simpl. rewrite He.
  destruct (String.eqb_spec basePath (realpathSync fs (basePath +:+ "/.."))); [| done].
  by destruct Hne.
Qed.

(** X10: the manifest that is used is the one of the nearest folder, from
    the base path upwards, that has a [package.json]: folders above it are
    not looked at.  When that file cannot be read the result is the empty
    manifest, also when a folder further up has a good one.  The walk
    returns as soon as it has visited that folder. *)
Theorem getPackageConfig_nearest (w : World) (fs : ManifestFiles)
    (basePath : string) (n fuel : nat) :
  passes w fs n basePath →
  pathExistsSync w (ancestor fs n basePath +:+ "/package.json") = true →
  n < fuel →
  getPackageConfig fuel w fs basePath
  = Some (default emptyPackageConfig
            (readJSONSync fs (ancestor fs n basePath +:+ "/package.json"))).
Proof.
  revert basePath fuel. induction n as [| n IH]; intros basePath fuel Hp He Hf.
  - destruct fuel as [| fuel]; [lia |]. by apply getPackageConfig_here.
  - destruct fuel as [| fuel]; [lia |].
    apply passes_S in Hp as (H0 & Hne & Hp).
    rewrite getPackageConfig_step by done.
    apply IH; [done | done | lia].
Qed.

Lemma getPackageConfig_nearest_witness :
  getPackageConfig 5 withManifests nestedManifests "/app/src" = Some emptyPackageConfig.
Proof.
  apply (getPackageConfig_nearest withManifests nestedManifests "/app/src" 1 5);
    [| reflexivity | lia].
  intros i Hi. assert (i = 0) as -> by lia. split; [reflexivity | discriminate].
Defined.

(** X11: when no folder up to the root folder (the one that is its own
    parent) has a [package.json], the result is the empty manifest. *)
Theorem getPackageConfig_root (w : World) (fs : ManifestFiles)
    (basePath : string) (n fuel : nat) :
  passes w fs n basePath →
  pathExistsSync w (ancestor fs n basePath +:+ "/package.json") = false →
  ancestor fs (S n) basePath = ancestor fs n basePath →
  n < fuel →
  getPackageConfig fuel w fs basePath = Some emptyPackageConfig.
Proof.
  revert basePath fuel. induction n as [| n IH]; intros basePath fuel Hp He Hroot Hf.
  - destruct fuel as [| fuel]; [lia |]. simpl in *. rewrite He, Hroot.
    by rewrite String.eqb_refl.
  - destruct fuel as [| fuel]; [lia |].
    apply passes_S in Hp as (H0 & Hne & Hp).
    rewrite getPackageConfig_step by done.
    apply IH; [done | done | done | lia].
Qed.

Lemma getPackageConfig_root_witness :
  getPackageConfig 3 Sample.bare nestedManifests "/app/src" = Some emptyPackageConfig.
Proof.
  apply (getPackageConfig_root Sample.bare nestedManifests "/app/src" 2 3);
    [| reflexivity | reflexivity | lia].
  intros i Hi. assert (i = 0 ∨ i = 1) as [-> | ->] by lia;
    (split; [reflexivity | discriminate]).
Defined.

(** ** More on getConfigPaths *)

Lemma filter_all {A} (P : A → Prop) `{!∀ x, Decision (P x)} (l : list A) :
  Forall P l → filter P l = l.
Proof.
  induction 1 as [| x l Hx _ IH]; [done |].
  by rewrite filter_cons, decide_True, IH.
Qed.

Lemma compiledCandidates_js w p :
  p ∈ Spec.compiledCandidates w → Js.endsWith p ".js" = true.
Proof.
  unfold Spec.compiledCandidates, Spec.outputDir. intros Hp.
  apply elem_of_cons in Hp as [-> | Hp].
  - by destruct (pathExistsSync w (cwd w +:+ "/dist")),
                (pathExistsSync w (cwd w +:+ "/build")).
  - apply elem_of_cons in Hp as [-> | Hp]; [done | by apply elem_of_nil in Hp].
Qed.

(** X12: the two compiled candidates, [./<dist|build|src>/mikro-orm.config.js]
    and [./mikro-orm.config.js], are in the result of [getConfigPaths] in
    every world, so the result is never empty; the folder is [dist] when it
    exists, whether or not [build] exists too. *)
Theorem getConfigPaths_compiled_always (w : World) :
  ("./" +:+ Spec.outputDir w +:+ "/mikro-orm.config.js") ∈ getConfigPaths w
  ∧ "./mikro-orm.config.js" ∈ getConfigPaths w
  ∧ getConfigPaths w ≠ []
  ∧ (pathExistsSync w (cwd w +:+ "/dist") = true →
     "./dist/mikro-orm.config.js" ∈ getConfigPaths w).
Proof.
  assert (∀ p, p ∈ Spec.compiledCandidates w → p ∈ getConfigPaths w) as Hin.
  { intros p Hp. apply getConfigPaths_elem_of. split.
    - unfold Spec.candidatePaths. rewrite !elem_of_app. by do 3 right.
    - left. by apply (compiledCandidates_js w). }
  assert ("./mikro-orm.config.js" ∈ getConfigPaths w) as Hroot.
  { apply Hin. unfold Spec.compiledCandidates.
    apply elem_of_cons. right. apply elem_of_cons. by left. }
  assert (("./" +:+ Spec.outputDir w +:+ "/mikro-orm.config.js") ∈ getConfigPaths w)
    as Hout.
  { apply Hin. unfold Spec.compiledCandidates. apply elem_of_cons. by left. }
  split; [done |]. split; [done |]. split.
  - intros Hnil. rewrite Hnil in Hroot. by apply elem_of_nil in Hroot.
  - intros Hdist. unfold Spec.outputDir in Hout. by rewrite Hdist in Hout.
Qed.

Lemma getConfigPaths_compiled_always_witness :
  "./dist/mikro-orm.config.js"
  ∈ getConfigPaths (Sample.withFile "/app/dist" VUndefined Sample.bare).
Proof.
  set (w := Sample.withFile _ _ _).
  destruct (getConfigPaths_compiled_always w) as (_ & _ & _ & Hdist).
  by apply Hdist.
Defined.

(** X13: with no TypeScript loader detected and TypeScript not
    force-allowed, every path [getConfigPaths] returns ends in [.js],
    wherever it comes from (override, manifest or defaults); with a loader
    detected, or TypeScript force-allowed, nothing is filtered out and the
    result is the deduplicated list of candidates. *)
Theorem getConfigPaths_filter_modes (w : World) :
  (detectTsNode w = false → forceAllowTs w = false →
   Forall (fun p => Js.endsWith p ".js" = true) (getConfigPaths w))
  ∧ (detectTsNode w = true ∨ forceAllowTs w = true →
     getConfigPaths w = Utils.unique (Spec.candidatePaths w)
     ∧ ∀ p, p ∈ Spec.candidatePaths w → p ∈ getConfigPaths w).
Proof.
  split.
  - intros Hts Hforce. apply Forall_forall. intros p Hp.
    apply getConfigPaths_elem_of in Hp as [_ [Hjs | [H | H]]]; [done | |]; congruence.
  - intros Hallow.
    assert (getConfigPaths w = Utils.unique (Spec.candidatePaths w)) as Heq.
    { rewrite getConfigPaths_unfold. apply filter_all, Forall_forall. intros p _.
      unfold Spec.loadable. apply Is_true_true.
      destruct Hallow as [-> | ->]; by rewrite ?orb_true_r. }
    split; [done |]. intros p Hp. rewrite Heq. by apply unique_elem_of.
Qed.

Lemma getConfigPaths_filter_modes_witness :
  Forall (fun p => Js.endsWith p ".js" = true) (getConfigPaths Sample.tsOverride).
Proof.
  apply (proj1 (getConfigPaths_filter_modes Sample.tsOverride)); reflexivity.
Defined.

(** ** More on getConfigFile *)

Lemma getConfigFileLoop_calls w import paths ev :
  ev ∈ snd (getConfigFileLoop w import paths) →
  ∃ p, p ∈ paths ∧ (ev = ExistsCall (resolved w p) ∨ ev = ImportCall (resolved w p)).
Proof.
  induction paths as [| p paths IH]; simpl.
  - by intros ?%elem_of_nil.
  - unfold tbind, callPathExists, callImport. simpl. fold (resolved w p).
    destruct (pathExistsSync w (resolved w p)); simpl.
    + rewrite !elem_of_cons, elem_of_nil.
      intros [-> | [-> | []]]; exists p; (split; [by left | tauto]).
    + destruct (getConfigFileLoop w import paths) as [r later]. simpl in *.
      rewrite elem_of_cons. intros [-> | Hev].
      * exists p. split; [by left | tauto].
      * destruct (IH Hev) as (q & Hq & Hor). exists q. split; [by right | done].
Qed.

Lemma getConfigFileLoop_one_import w import paths :
  length (filter (fun ev => Is_true (isImportCall ev))
            (snd (getConfigFileLoop w import paths))) ≤ 1.
Proof.
  induction paths as [| p paths IH]; simpl; [lia |].
  unfold tbind, callPathExists, callImport. simpl.
  destruct (pathExistsSync w _); simpl.
  - lia.
  - destruct (getConfigFileLoop w import paths) as [r later]. exact IH.
Qed.

Lemma getConfigFileLoop_sound w import paths q v :
  fst (getConfigFileLoop w import paths) = Some (q, v) →
  ∃ p, p ∈ paths ∧ q = resolved w p ∧ pathExistsSync w q = true ∧ v = import q.
Proof.
  induction paths as [| p paths IH]; simpl; [done |].
  unfold tbind, callPathExists, callImport. simpl. fold (resolved w p).
  destruct (pathExistsSync w (resolved w p)) eqn:Hp; simpl.
  - intros [= <- <-]. exists p. split; [by left | done].
  - destruct (getConfigFileLoop w import paths) as [r later]. simpl in *.
    intros Hr. destruct (IH Hr) as (p' & Hin & Hrest).
    exists p'. split; [by right | done].
Qed.

(** X14: whatever the paths, [getConfigFile] touches the file system and the
    loader only for its candidates, in their resolved form, and asks the
    loader for at most one import; a result names a candidate that exists,
    with what the loader imports from it, and there is no result exactly
    when no candidate exists. *)
Theorem getConfigFile_sound (w : World) (paths : list string)
    (basePath : string) (settings : Settings) :
  let calls := snd (getConfigFileTraced w paths basePath settings) in
  (∀ ev, ev ∈ calls →
         ∃ p, p ∈ paths
              ∧ (ev = ExistsCall (resolved w p) ∨ ev = ImportCall (resolved w p)))
  ∧ length (filter (fun ev => Is_true (isImportCall ev)) calls) ≤ 1
  ∧ (∀ q v, getConfigFile w paths basePath settings = Some (q, v) →
            ∃ p, p ∈ paths ∧ q = resolved w p ∧ pathExistsSync w q = true
                 ∧ v = createLoader w basePath settings q)
  ∧ (getConfigFile w paths basePath settings = None ↔ noneExists w paths).
Proof.
  cbv zeta. unfold getConfigFile, getConfigFileTraced.
  split; [| split; [| split]].
  - intros ev. apply getConfigFileLoop_calls.
  - apply getConfigFileLoop_one_import.
  - intros q v. apply getConfigFileLoop_sound.
  - split.
    + intros Hnone. destruct (paths_cases w paths) as [H | (b & p & a & -> & Hb & Hp)];
        [done |].
      by rewrite (getConfigFileLoop_first _ _ _ _ _ Hb Hp) in Hnone.
    + intros Hnone. by rewrite getConfigFileLoop_none.
Qed.

Lemma getConfigFile_sound_witness :
  noneExists Sample.bare ["./a.js"; "./b.js"].
Proof.
  apply (proj1 (proj2 (proj2 (proj2
           (getConfigFile_sound Sample.bare ["./a.js"; "./b.js"] "/app" emptySettings))))).
  reflexivity.
Defined.

(** ** What selectConfig can return *)

Lemma configFinder_valid contextName cfg :
  configFinder contextName cfg = true →
  isValidConfigFactoryResult contextName cfg = true.
Proof.
  unfold configFinder, isValidConfigFactoryResult.
  destruct (isObject cfg); [| done]. simpl. by destruct (contextNameOf cfg).
Qed.

Lemma findIndex_Some f entries i :
  findIndex f entries = Some i → ∃ cfg, entries !! i = Some cfg ∧ f cfg = true.
Proof.
  unfold findIndex. intros ([j cfg] & Hfind & ->)%fmap_Some.
  apply list_find_Some in Hfind as (Hl & Hf & _). simpl.
  exists cfg. split; [done | by apply Is_true_true].
Qed.

Lemma findIndex_None_noMatch contextName entries :
  findIndex (configFinder contextName) entries = None → noMatch contextName entries.
Proof.
  unfold findIndex, noMatch. intros Hnone%fmap_None.
  apply list_find_None in Hnone. eapply Forall_impl; [exact Hnone |].
  intros cfg Hcfg. simpl in Hcfg.
  destruct (configFinder contextName cfg); [by exfalso; apply Hcfg | done].
Qed.

Lemma tryFactories_origin contextName entries tmp :
  tryFactories contextName entries tmp = tmp
  ∨ ∃ g, VFun g ∈ entries
         ∧ tryFactories contextName entries tmp = g contextName
         ∧ isValidConfigFactoryResult contextName (g contextName) = true.
Proof.
  induction entries as [| e entries IH]; [by left |].
  assert (tryFactories contextName entries tmp = tmp
          ∨ ∃ g, VFun g ∈ e :: entries
                 ∧ tryFactories contextName entries tmp = g contextName
                 ∧ isValidConfigFactoryResult contextName (g contextName) = true)
    as IH'.
  { destruct IH as [IH | (g & Hg & Heq & Hv)]; [by left |].
    right. exists g. split; [by apply elem_of_cons; right | done]. }
  cbn [tryFactories]. destruct e as [| | b | z | s | items | props | f]; try exact IH'.
  cbv zeta. destruct (isValidConfigFactoryResult contextName (f contextName)) eqn:Hf;
    [| exact IH'].
  right. exists f. split; [by apply elem_of_cons; left | done].
Qed.

Lemma valid_contextName contextName cfg :
  isValidConfigFactoryResult contextName cfg = true →
  isObject cfg = true
  ∧ ∀ name, contextNameOf cfg = Some name → name = VStr contextName.
Proof.
  unfold isValidConfigFactoryResult. intros [Hobj Hname]%andb_true_iff.
  split; [done |]. intros name Hn. rewrite Hn in Hname.
  destruct name; try done. simpl in Hname.
  by apply String.eqb_eq in Hname as ->.
Qed.

Lemma configFinder_array contextName items :
  configFinder contextName (VArr items) = true → contextName = "default".
Proof. unfold configFinder. simpl. apply String.eqb_eq. Qed.

(** X15: whatever the file exports, a configuration that [selectConfig]
    returns is a non-null object, and if it has a [contextName] at all, it
    is the string that was requested: a configuration of another name is
    never selected.  It is the export itself when that is neither an array
    nor a function and matches the name, or a matching entry of the
    exported array, or what a function among the entries of an array
    without a matching entry returned for the name, or what the exported
    function returned for the name.  An array is selected only as the result
    of an exported function, under any name, or as a static entry of the
    exported array under the name [default]; never as the result of a
    function among the entries. *)
Theorem selectConfig_sound (contextName path : string) (exported cfg : value) :
  selectConfig contextName path exported = Ok cfg →
  isObject cfg = true
  ∧ (∀ name, contextNameOf cfg = Some name → name = VStr contextName)
  ∧ ((exported = cfg ∧ isArray cfg = false ∧ configFinder contextName cfg = true)
     ∨ (∃ entries, exported = VArr entries ∧ cfg ∈ entries
                   ∧ configFinder contextName cfg = true)
     ∨ (∃ entries g, exported = VArr entries ∧ VFun g ∈ entries
                     ∧ cfg = g contextName ∧ isArray cfg = false
                     ∧ noMatch contextName entries)
     ∨ (∃ g, exported = VFun g ∧ cfg = g contextName))
  ∧ (isArray cfg = true →
     (∃ g, exported = VFun g ∧ cfg = g contextName)
     ∨ (∃ entries, exported = VArr entries ∧ cfg ∈ entries
                   ∧ contextName = "default")).
Proof.
  intros Hsel.
  assert (isValidConfigFactoryResult contextName cfg = true
          ∧ ((exported = cfg ∧ isArray cfg = false
              ∧ configFinder contextName cfg = true)
             ∨ (∃ entries, exported = VArr entries ∧ cfg ∈ entries
                           ∧ configFinder contextName cfg = true)
             ∨ (∃ entries g, exported = VArr entries ∧ VFun g ∈ entries
                             ∧ cfg = g contextName ∧ isArray cfg = false
                             ∧ noMatch contextName entries)
             ∨ (∃ g, exported = VFun g ∧ cfg = g contextName)))
    as [Hvalid Hfrom].
  { unfold selectConfig in Hsel.
    destruct exported as [| | b | z | s | entries | props | f].
    1-5, 7: (destruct (configFinder contextName _) eqn:Hc; [| done];
             injection Hsel as <-; split; [by apply configFinder_valid | by left]).
    - destruct (findIndex (configFinder contextName) entries) as [i |] eqn:Hi.
      + case_bool_decide; [done |]. injection Hsel as <-.
        apply findIndex_Some in Hi as (c & Hlook & Hc). rewrite Hlook. simpl.
        split; [by apply configFinder_valid |].
        right. left. exists entries.
        split; [done |]. split; [by eapply list_elem_of_lookup_2 | done].
      + cbv zeta in Hsel.
        destruct (isArray (tryFactories contextName entries (VArr entries))) eqn:Hres;
          [done |].
        injection Hsel as <-.
        destruct (tryFactories_origin contextName entries (VArr entries))
          as [Heq | (g & Hg & Heq & Hv)].
        * by rewrite Heq in Hres.
        * split; [by rewrite Heq |].
          right. right. left. exists entries, g.
          split; [done |]. split; [done |]. split; [done |]. split; [done |].
          by apply findIndex_None_noMatch.
    - cbv zeta in Hsel.
      destruct (isValidConfigFactoryResult contextName (f contextName)) eqn:Hv; [| done].
      injection Hsel as <-. split; [done |]. right. right. right. by exists f. }
  destruct (valid_contextName contextName cfg Hvalid) as [Hobj Hname].
  split; [done |]. split; [done |]. split; [done |].
  intros Harr.
  destruct Hfrom as [(_ & Hno & _) | [(entries & -> & Hin & Hc)
    | [(entries & g & _ & _ & _ & Hno & _) | (g & -> & ->)]]].
  - congruence.
  - right. exists entries. split; [done |]. split; [done |].
    destruct cfg; try done. by eapply configFinder_array.
  - congruence.
  - left. by exists g.
Qed.

Lemma selectConfig_sound_witness :
  (isObject namedA = true
   ∧ (∀ name, contextNameOf namedA = Some name → name = VStr "a")
   ∧ ((VArr [namedA; namedB] = namedA ∧ isArray namedA = false
       ∧ configFinder "a" namedA = true)
      ∨ (∃ entries, VArr [namedA; namedB] = VArr entries ∧ namedA ∈ entries
                    ∧ configFinder "a" namedA = true)
      ∨ (∃ entries g, VArr [namedA; namedB] = VArr entries ∧ VFun g ∈ entries
                      ∧ namedA = g "a" ∧ isArray namedA = false
                      ∧ noMatch "a" entries)
      ∨ (∃ g, VArr [namedA; namedB] = VFun g ∧ namedA = g "a"))
   ∧ (isArray namedA = true →
      (∃ g, VArr [namedA; namedB] = VFun g ∧ namedA = g "a")
      ∨ (∃ entries, VArr [namedA; namedB] = VArr entries ∧ namedA ∈ entries
                    ∧ "a" = "default")))
  ∧ (isArray (VArr []) = true →
     (∃ g, Sample.arrayFactory = VFun g ∧ VArr [] = g "reports")
     ∨ (∃ entries, Sample.arrayFactory = VArr entries ∧ VArr [] ∈ entries
                   ∧ "reports" = "default")).
Proof.
  split.
  - apply (selectConfig_sound "a" "/app/orm.js" (VArr [namedA; namedB]) namedA).
    reflexivity.
  - apply (selectConfig_sound "reports" "/app/orm.js" Sample.arrayFactory (VArr [])).
    reflexivity.
Defined.

(** ** Which packages are compared *)

Lemma substring_all s : String.substring 0 (String.length s) s = s.
Proof. induction s as [| c s IH]; [done |]. simpl. by rewrite IH. Qed.

Lemma prefix_append p s : String.prefix p (p +:+ s) = true.
Proof.
  induction p as [| c p IH]; [by destruct s |].
  change (String c p +:+ s) with (String c (p +:+ s)). rewrite prefix_String.
  by destruct (Ascii.ascii_dec c c).
Qed.

Lemma length_append_string p s :
  String.length (p +:+ s) = String.length p + String.length s.
Proof. induction p as [| c p IH]; [done |]. simpl. by rewrite IH. Qed.

Lemma substring_append p m s :
  String.substring (String.length p) m (p +:+ s) = String.substring 0 m s.
Proof. induction p as [| c p IH]; [done | exact IH]. Qed.

Lemma companion_suffix name :
  Js.startsWith ("@mikro-orm/" +:+ name) "@mikro-orm/" = true
  ∧ Js.substringFrom (String.length "@mikro-orm/") ("@mikro-orm/" +:+ name) = name.
Proof.
  split; [apply prefix_append |].
  unfold Js.substringFrom. rewrite length_append_string, substring_append.
  replace (String.length "@mikro-orm/" + String.length name - String.length "@mikro-orm/")
    with (String.length name) by lia.
  apply substring_all.
Qed.

(** X17: a dependency [@mikro-orm/<name>] is compared with the core version
    exactly when [<name>] is not [core] and not one of the three exceptions,
    spelled exactly: [nestjs-extra] or [Nestjs] are compared; a dependency
    that does not start with [@mikro-orm/] is never compared. *)
Theorem isOrmPackage_exact (name d : string) :
  (isOrmPackage ("@mikro-orm/" +:+ name) = true
   ↔ name ∉ ["core"; "nestjs"; "sql-highlighter"; "mongo-highlighter"])
  ∧ (Js.startsWith d "@mikro-orm/" = false → isOrmPackage d = false).
Proof.
  split.
  - destruct (companion_suffix name) as [Hprefix Hsuffix].
    unfold isOrmPackage. rewrite Hprefix, Hsuffix.
    rewrite andb_true_l, andb_true_iff, !negb_true_iff, includes_false.
    unfold exceptions. rewrite !not_elem_of_cons.
    assert (String.eqb ("@mikro-orm/" +:+ name) "@mikro-orm/core" = false ↔ name ≠ "core")
      as ->; [| tauto].
    rewrite String.eqb_neq. split; intros Hne Heq; apply Hne.
    + by rewrite Heq.
    + by injection Heq.
  - intros Hd. unfold isOrmPackage. by rewrite Hd.
Qed.

Lemma isOrmPackage_exact_witness :
  isOrmPackage "@mikro-orm/nestjs-extra" = true
  ∧ isOrmPackage "@mikro-orm/nestjs" = false
  ∧ isOrmPackage "mikro-orm" = false.
Proof.
  split; [| split].
  - apply (proj1 (isOrmPackage_exact "nestjs-extra" "")). compute_done.
  - apply not_true_is_false.
    rewrite (proj1 (isOrmPackage_exact "nestjs" "")). intros H. apply H. compute_done.
  - by apply (proj2 (isOrmPackage_exact "" "mikro-orm")).
Defined.

(** ** The array mapper *)

Lemma splitGo_length sep cur s :
  length (Js.splitGo sep cur s) = S (countChar sep s).
Proof.
  revert cur. induction s as [| c s IH]; intros cur; simpl; [done |].
  destruct (Ascii.eqb c sep); simpl; by rewrite IH.
Qed.

Lemma append_cons c s t : String c s +:+ t = String c (s +:+ t).
Proof. done. Qed.

Lemma append_empty_l s : "" +:+ s = s.
Proof. done. Qed.

Lemma append_empty_r s : s +:+ "" = s.
Proof. induction s as [| c s IH]; [done |]. by rewrite append_cons, IH. Qed.

Lemma append_assoc_string a b c : (a +:+ b) +:+ c = a +:+ (b +:+ c).
Proof. induction a as [| x a IH]; [done |]. by rewrite !append_cons, IH. Qed.

Lemma rev_app_append s1 s2 : String.rev_app s1 s2 = String.rev_app s1 "" +:+ s2.
Proof.
  revert s2. induction s1 as [| c s1 IH]; intros s2; [done |].
  cbn [String.rev_app]. rewrite (IH (String c s2)), (IH (String c "")).
  by rewrite append_assoc_string.
Qed.

Lemma countChar_append sep a b :
  countChar sep (a +:+ b) = countChar sep a + countChar sep b.
Proof.
  induction a as [| x a IH]; [done |].
  rewrite append_cons. cbn [countChar]. rewrite IH. lia.
Qed.

Lemma countChar_rev sep c cur :
  countChar sep (String.rev (String c cur))
  = countChar sep (String.rev cur) + (if Ascii.eqb c sep then 1 else 0).
Proof.
  unfold String.rev. cbn [String.rev_app].
  rewrite rev_app_append, countChar_append. cbn [countChar]. lia.
Qed.

Lemma join_cons sep x l :
  l ≠ [] → Js.join sep (x :: l) = x +:+ sep +:+ Js.join sep l.
Proof. by destruct l. Qed.

Lemma splitGo_nonempty sep cur s : Js.splitGo sep cur s ≠ [].
Proof.
  intros Hnil. pose proof (splitGo_length sep cur s) as Hlen.
  by rewrite Hnil in Hlen.
Qed.

(** Joining the pieces with the separator gives the string back. *)
Lemma join_splitGo sep cur s :
  Js.join (String sep "") (Js.splitGo sep cur s) = String.rev cur +:+ s.
Proof.
  revert cur. induction s as [| c s IH]; intros cur.
  - cbn [Js.splitGo]. unfold Js.join. cbn [concat]. by rewrite append_empty_r.
  - cbn [Js.splitGo]. destruct (Ascii.eqb c sep) eqn:Hc.
    + apply Ascii.eqb_eq in Hc as ->.
      rewrite join_cons by apply splitGo_nonempty. by rewrite IH.
    + rewrite IH. unfold String.rev. cbn [String.rev_app].
      by rewrite (rev_app_append cur (String c "")), append_assoc_string.
Qed.

(** No piece holds the separator. *)
Lemma splitGo_pieces sep cur s :
  countChar sep (String.rev cur) = 0 →
  Forall (fun p => countChar sep p = 0) (Js.splitGo sep cur s).
Proof.
  revert cur. induction s as [| c s IH]; intros cur Hcur.
  - by apply Forall_cons.
  - cbn [Js.splitGo]. destruct (Ascii.eqb c sep) eqn:Hc.
    + apply Forall_cons. split; [done |]. by apply IH.
    + apply IH. rewrite countChar_rev, Hc. lia.
Qed.

Lemma trimStart_1 c1 r : Js.isSpace c1 = true → Js.trimStart (String c1 r) = Js.trimStart r.
Proof. intros H. cbn [Js.trimStart]. by rewrite H. Qed.

Lemma trimStart_2 c1 c2 r :
  Js.isSpace c1 = false → Js.isSpace2 c1 c2 = true →
  Js.trimStart (String c1 (String c2 r)) = Js.trimStart r.
Proof. intros H1 H2. cbn [Js.trimStart]. by rewrite H1, H2. Qed.

Lemma trimStart_3 c1 c2 c3 r :
  Js.isSpace c1 = false → Js.isSpace2 c1 c2 = false → Js.isSpace3 c1 c2 c3 = true →
  Js.trimStart (String c1 (String c2 (String c3 r))) = Js.trimStart r.
Proof. intros H1 H2 H3. cbn [Js.trimStart]. by rewrite H1, H2, H3. Qed.

(** The ways [trimStart] can take its argument: it is left as it is, not
    starting with white space, or one white-space character goes. *)
Lemma trimStart_cases s :
  (Js.trimStart s = s ∧ startsWithSpace s = false)
  ∨ (∃ c1 r, s = String c1 r ∧ Js.isSpace c1 = true)
  ∨ (∃ c1 c2 r, s = String c1 (String c2 r)
                ∧ Js.isSpace c1 = false ∧ Js.isSpace2 c1 c2 = true)
  ∨ (∃ c1 c2 c3 r, s = String c1 (String c2 (String c3 r))
                   ∧ Js.isSpace c1 = false ∧ Js.isSpace2 c1 c2 = false
                   ∧ Js.isSpace3 c1 c2 c3 = true).
Proof.
  destruct s as [| c1 r1]; [by left |].
  destruct (Js.isSpace c1) eqn:H1; [right; left; eauto |].
  destruct r1 as [| c2 r2].
  { left. cbn [Js.trimStart startsWithSpace]. by rewrite H1. }
  destruct (Js.isSpace2 c1 c2) eqn:H2; [right; right; left; by eauto 6 |].
  destruct r2 as [| c3 r3].
  { left. cbn [Js.trimStart startsWithSpace]. by rewrite H1, H2. }
  destruct (Js.isSpace3 c1 c2 c3) eqn:H3; [right; right; right; by eauto 10 |].
  left. cbn [Js.trimStart startsWithSpace]. by rewrite H1, H2, H3.
Qed.

Lemma allSpace_1 c1 r : Js.isSpace c1 = true → Js.allSpace (String c1 r) = Js.allSpace r.
Proof. intros H. unfold Js.allSpace. by rewrite trimStart_1. Qed.

Lemma allSpace_2 c1 c2 r :
  Js.isSpace c1 = false → Js.isSpace2 c1 c2 = true →
  Js.allSpace (String c1 (String c2 r)) = Js.allSpace r.
Proof. intros H1 H2. unfold Js.allSpace. by rewrite trimStart_2. Qed.

Lemma allSpace_3 c1 c2 c3 r :
  Js.isSpace c1 = false → Js.isSpace2 c1 c2 = false → Js.isSpace3 c1 c2 c3 = true →
  Js.allSpace (String c1 (String c2 (String c3 r))) = Js.allSpace r.
Proof. intros H1 H2 H3. unfold Js.allSpace. by rewrite trimStart_3. Qed.

(** What [trimStart] takes away is white space, and what it leaves does not
    start with white space. *)
Lemma trimStart_spec_bounded n s :
  String.length s ≤ n →
  (∃ lead, s = lead +:+ Js.trimStart s ∧ Js.allSpace lead = true)
  ∧ startsWithSpace (Js.trimStart s) = false.
Proof.
  revert s. induction n as [| n IH]; intros s Hlen.
  { destruct s; [| simpl in Hlen; lia]. split; [by exists "" | done]. }
  destruct (trimStart_cases s) as [[Hsame Hstart]
    | [(c1 & r & -> & H1) | [(c1 & c2 & r & -> & H1 & H2)
    | (c1 & c2 & c3 & r & -> & H1 & H2 & H3)]]].
  - rewrite Hsame. split; [by exists "" | done].
  - simpl in Hlen. destruct (IH r) as [(lead & Hr & Hlead) Hno]; [lia |].
    rewrite trimStart_1 by done. split; [| done].
    exists (String c1 lead). split; [by rewrite !append_cons, <- Hr |].
    by rewrite allSpace_1.
  - simpl in Hlen. destruct (IH r) as [(lead & Hr & Hlead) Hno]; [lia |].
    rewrite trimStart_2 by done. split; [| done].
    exists (String c1 (String c2 lead)). split; [by rewrite !append_cons, <- Hr |].
    by rewrite allSpace_2.
  - simpl in Hlen. destruct (IH r) as [(lead & Hr & Hlead) Hno]; [lia |].
    rewrite trimStart_3 by done. split; [| done].
    exists (String c1 (String c2 (String c3 lead))). split; [by rewrite !append_cons, <- Hr |].
    by rewrite allSpace_3.
Qed.

Lemma trimStart_spec s :
  (∃ lead, s = lead +:+ Js.trimStart s ∧ Js.allSpace lead = true)
  ∧ startsWithSpace (Js.trimStart s) = false.
Proof. by apply (trimStart_spec_bounded (String.length s)). Qed.

(** White space in front of a string goes with the white space the string
    starts with. *)
Lemma trimStart_append_bounded n p q :
  String.length p ≤ n → Js.allSpace p = true →
  Js.trimStart (p +:+ q) = Js.trimStart q.
Proof.
  revert p. induction n as [| n IH]; intros p Hlen Hp.
  { destruct p; [done | simpl in Hlen; lia]. }
  destruct (trimStart_cases p) as [[Hsame Hstart]
    | [(c1 & r & -> & H1) | [(c1 & c2 & r & -> & H1 & H2)
    | (c1 & c2 & c3 & r & -> & H1 & H2 & H3)]]].
  - unfold Js.allSpace in Hp. rewrite Hsame in Hp. by destruct p.
  - simpl in Hlen. rewrite allSpace_1 in Hp by done.
    change (String c1 r +:+ q) with (String c1 (r +:+ q)).
    rewrite trimStart_1 by done. apply IH; [lia | done].
  - simpl in Hlen. rewrite allSpace_2 in Hp by done.
    change (String c1 (String c2 r) +:+ q) with (String c1 (String c2 (r +:+ q))).
    rewrite trimStart_2 by done. apply IH; [lia | done].
  - simpl in Hlen. rewrite allSpace_3 in Hp by done.
    change (String c1 (String c2 (String c3 r)) +:+ q)
      with (String c1 (String c2 (String c3 (r +:+ q)))).
    rewrite trimStart_3 by done. apply IH; [lia | done].
Qed.

Lemma allSpace_append p q :
  Js.allSpace p = true → Js.allSpace q = true → Js.allSpace (p +:+ q) = true.
Proof.
  intros Hp Hq. unfold Js.allSpace.
  by rewrite (trimStart_append_bounded (String.length p) p q).
Qed.

Lemma trimEnd_cons c r :
  Js.trimEnd (String c r)
  = if Js.allSpace (String c r) then EmptyString else String c (Js.trimEnd r).
Proof. done. Qed.

(** What [trimEnd] takes away is white space. *)
Lemma trimEnd_decompose s :
  ∃ trail, s = Js.trimEnd s +:+ trail ∧ Js.allSpace trail = true.
Proof.
  induction s as [| c r (trail & Hr & Htrail)]; [by exists "" |].
  rewrite trimEnd_cons. destruct (Js.allSpace (String c r)) eqn:Hall.
  - by exists (String c r).
  - exists trail. split; [| done]. by rewrite append_cons, <- Hr.
Qed.

(** What [trimEnd] leaves does not end with white space: none of its
    suffixes but the empty one is white space only. *)
Lemma trimEnd_no_space s a b :
  Js.trimEnd s = a +:+ b → b ≠ "" → Js.allSpace b = false.
Proof.
  revert a. induction s as [| c r IH]; intros a Heq Hb.
  { cbn [Js.trimEnd] in Heq. destruct a; [by rewrite append_empty_l in Heq | done]. }
  rewrite trimEnd_cons in Heq. destruct (Js.allSpace (String c r)) eqn:Hall.
  { destruct a; [by rewrite append_empty_l in Heq | done]. }
  destruct a as [| x a].
  - rewrite append_empty_l in Heq. subst b. apply not_true_is_false. intros Hspace.
    destruct (trimEnd_decompose (String c r)) as (trail & Hs & Htrail).
    rewrite trimEnd_cons, Hall in Hs.
    pose proof (allSpace_append _ _ Hspace Htrail) as Hboth.
    rewrite <- Hs in Hboth. congruence.
  - rewrite append_cons in Heq. injection Heq as _ Heq. by eapply IH.
Qed.

Lemma startsWithSpace_prefix a b :
  startsWithSpace (a +:+ b) = false → startsWithSpace a = false.
Proof.
  destruct a as [| c1 [| c2 [| c3 r]]]; [done | | |].
  - change (String c1 "" +:+ b) with (String c1 b). cbn [startsWithSpace].
    destruct (Js.isSpace c1); [done | by rewrite orb_false_r].
  - change (String c1 (String c2 "") +:+ b) with (String c1 (String c2 b)).
    cbn [startsWithSpace]. destruct (Js.isSpace c1); [done |].
    destruct (Js.isSpace2 c1 c2); [done | by rewrite !orb_false_r].
  - change (String c1 (String c2 (String c3 r)) +:+ b)
      with (String c1 (String c2 (String c3 (r +:+ b)))).
    by cbn [startsWithSpace].
Qed.

(** [trim] takes white space away at both ends, and all of it: what is left
    neither starts nor ends with white space. *)
Lemma trim_spec p :
  ∃ lead trail,
    p = lead +:+ Js.trim p +:+ trail
    ∧ Js.allSpace lead = true ∧ Js.allSpace trail = true
    ∧ startsWithSpace (Js.trim p) = false
    ∧ ∀ a b, Js.trim p = a +:+ b → b ≠ "" → Js.allSpace b = false.
Proof.
  destruct (trimStart_spec p) as [(lead & Hp & Hlead) Hstart].
  destruct (trimEnd_decompose (Js.trimStart p)) as (trail & Ht & Htrail).
  exists lead, trail. unfold Js.trim.
  split; [by rewrite <- Ht |]. split; [done |]. split; [done |]. split.
  - apply (startsWithSpace_prefix _ trail). by rewrite <- Ht.
  - intros a b. apply trimEnd_no_space.
Qed.

(** X18: a variable of array type decodes to the array of the trimmed pieces
    of its value between the commas: joined with commas the pieces give the
    value back, no piece holds a comma, and there is one piece more than
    the value has commas, so the array is never empty; the empty value
    decodes to one entry, the empty string.  Each entry is its piece without
    the white space at both ends: what is taken away is white space only,
    one to three bytes a character, and what is left neither starts nor
    ends with white space. *)
Theorem array_entries (v : string) :
  ∃ pieces,
    array v = VArr ((fun p => VStr (Js.trim p)) <$> pieces)
    ∧ Js.join "," pieces = v
    ∧ Forall (fun p => countChar "," p = 0) pieces
    ∧ length pieces = S (countChar "," v)
    ∧ (∀ p, ∃ lead trail,
         p = lead +:+ Js.trim p +:+ trail
         ∧ Js.allSpace lead = true ∧ Js.allSpace trail = true
         ∧ startsWithSpace (Js.trim p) = false
         ∧ ∀ a b, Js.trim p = a +:+ b → b ≠ "" → Js.allSpace b = false)
    ∧ array "" = VArr [VStr ""].
Proof.
  exists (Js.split "," v). unfold Js.split.
  split; [done |]. split; [apply (join_splitGo "," "" v) |].
  split; [by apply splitGo_pieces |]. split; [apply splitGo_length |].
  split; [apply trim_spec | done].
Qed.

Lemma array_entries_witness :
  ∃ pieces,
    array " a ,b" = VArr ((fun p => VStr (Js.trim p)) <$> pieces)
    ∧ Js.join "," pieces = " a ,b"
    ∧ length pieces = 2
    ∧ Js.allSpace "a" = false.
Proof.
  destruct (array_entries " a ,b") as (pieces & Harr & Hjoin & _ & Hlen & Htrim & _).
  exists pieces. split; [done |]. split; [done |]. split; [done |].
  destruct (Htrim " a ") as (lead & trail & _ & _ & _ & _ & Hend).
  apply (Hend "" "a"); [reflexivity | discriminate].
Defined.

(** ** The runtime and TypeScript *)

Lemma sourceCandidates_in w p :
  p ∈ Spec.sourceCandidates w → p ∈ Spec.candidatePaths w.
Proof. intros Hp. unfold Spec.candidatePaths. rewrite !elem_of_app. tauto. Qed.

(** X19: under the bun runtime, with [alwaysAllowTs] left unset by the
    manifest and the environment, the two TypeScript sources are in the
    result of [getConfigPaths] even when [useTsNode] is [false] and no
    loader is detected; with [alwaysAllowTs] set to [false] the runtime is
    not consulted, and without a detected loader only [.js] paths are
    returned. *)
Theorem getConfigPaths_bun (w : World) :
  (Js.truthy (bun w) = true → alwaysAllowTs (getSettings w) = None →
   "./src/mikro-orm.config.ts" ∈ getConfigPaths w
   ∧ "./mikro-orm.config.ts" ∈ getConfigPaths w)
  ∧ (alwaysAllowTs (getSettings w) = Some false → detectTsNode w = false →
     Forall (fun p => Js.endsWith p ".js" = true) (getConfigPaths w)).
Proof.
  split.
  - intros Hbun Hnone.
    assert (forceAllowTs w = true) as Hforce by (unfold forceAllowTs; by rewrite Hnone).
    assert (Spec.sourceCandidates w
            = ["./src/mikro-orm.config.ts"; "./mikro-orm.config.ts"]) as Hsrc.
    { unfold Spec.sourceCandidates. by rewrite Hforce, orb_true_r. }
    split; apply getConfigPaths_elem_of; (split; [| by right; right]);
      apply sourceCandidates_in; rewrite Hsrc.
    + apply elem_of_cons. by left.
    + apply elem_of_cons. right. apply elem_of_cons. by left.
  - intros Hoff Hts.
    assert (forceAllowTs w = false) as Hforce by (unfold forceAllowTs; by rewrite Hoff).
    apply Forall_forall. intros p Hp.
    apply getConfigPaths_elem_of in Hp as [_ [Hjs | [H | H]]]; [done | |]; congruence.
Qed.

Lemma getConfigPaths_bun_witness :
  "./src/mikro-orm.config.ts" ∈ getConfigPaths underBun.
Proof. apply (proj1 (getConfigPaths_bun underBun)); reflexivity. Defined.

(** ** The loader option, the other way round *)

(** X20: [loaderOptionFromEnv] gives [false] only for a casing of a falsy
    string and ['auto'] only for a casing of a truthy string or for [auto]
    itself; any other result is the value as it was given, with its case:
    [AUTO] stays [AUTO]. *)
Theorem loaderOptionFromEnv_converse (value : string) :
  (loaderOptionFromEnv value = LoaderFalse ↔ Js.toLowerCase value ∈ falsyStrings)
  ∧ (∀ name, loaderOptionFromEnv value = LoaderName name →
       (name = "auto" ∧ Js.toLowerCase value ∈ truthyStrings)
       ∨ (name = value ∧ (Js.toLowerCase value ∉ falsyStrings)
          ∧ (Js.toLowerCase value ∉ truthyStrings))).
Proof.
  unfold loaderOptionFromEnv.
  destruct (Js.includes falsyStrings (Js.toLowerCase value)) eqn:Hf.
  - apply includes_true in Hf. split; [done |]. intros name [=].
  - apply includes_false in Hf.
    destruct (Js.includes truthyStrings (Js.toLowerCase value)) eqn:Ht.
    + apply includes_true in Ht. split; [split; [done | by intros ?] |].
      intros name [= <-]. by left.
    + apply includes_false in Ht. split; [split; [done | by intros ?] |].
      intros name [= <-]. by right.
Qed.

Lemma loaderOptionFromEnv_converse_witness :
  loaderOptionFromEnv "AUTO" = LoaderName "AUTO".
Proof.
  destruct (loaderOptionFromEnv "AUTO") as [| name] eqn:Hl.
  - apply (proj1 (loaderOptionFromEnv_converse "AUTO")) in Hl.
    exfalso. revert Hl. compute_done.
  - destruct (proj2 (loaderOptionFromEnv_converse "AUTO") name Hl)
      as [[_ Ht] | [-> _]]; [| reflexivity].
    exfalso. revert Ht. compute_done.
Defined.
